(** * The BLE peripheral application (package [service]): object tree,
      callback dispatch and advertisement registration.

    Shallow embedding of [service/Application.go] and of the advertisement
    object it drives.  Go pointers to records are modelled by the records
    themselves, a possibly-nil pointer or error by [option], the D-Bus
    connection by an event log together with the table of exported handlers,
    and Go's unspecified map iteration order by a stream of random seeds. *)

From Stdlib Require Import ZArith Lia.
From stdpp Require Import base option list strings gmap fin_maps pretty.

Open Scope Z_scope.

(** ** Go base types *)

(** [dbus.ObjectPath] is a string type. *)
Abbreviation ObjectPath := string (only parsing).

(** A non-nil Go [error], observed through its [Error()] text; the nil
    error is [None]. *)
Abbreviation error := string (only parsing).

(** A Go slice: the nil slice differs from an allocated slice of length 0. *)
Inductive slice (A : Type) : Type :=
| nil_slice
| make_slice (elems : list A).
Arguments nil_slice {A}.
Arguments make_slice {A} elems.

Definition len {A} (s : slice A) : nat :=
  match s with
  | nil_slice => 0%nat
  | make_slice l => length l
  end.

Definition is_nil {A} (s : slice A) : bool :=
  match s with
  | nil_slice => true
  | make_slice _ => false
  end.

(** Go's [int], taken at its 64-bit width: arithmetic wraps around. *)
Definition intSize : Z := 64.
Definition minInt : Z := - 2 ^ (intSize - 1).
Definition maxInt : Z := 2 ^ (intSize - 1) - 1.
Definition wrap_int (z : Z) : Z := (z - minInt) mod 2 ^ intSize + minInt.

(** [strconv.Itoa]: the decimal text of an [int], with a leading minus sign
    for negative numbers. *)
Definition Itoa (i : Z) : string := pretty i.

(** [s[1:]] on a Go string: panics on the empty string, otherwise drops the
    first byte. *)
Definition from1 (s : string) : option string :=
  match s with
  | EmptyString => None
  | String _ rest => Some rest
  end.

(** ** The GATT object tree *)

(** Modelled from the spec: the descriptor, characteristic and service node
    types are declared in other files of the package; a node carries a UUID, its
    properties and its children keyed by their object path. *)
Record GattDescriptor1 : Type := mkDescriptor {
  desc_UUID : string
}.

Record GattCharacteristic1 : Type := mkCharacteristic {
  char_UUID : string;
  char_descriptors : gmap ObjectPath GattDescriptor1
}.

Record GattService1Properties : Type := mkServiceProperties {
  Primary : bool;
  UUID : string
}.

(** [GattService1Config] as [CreateService] fills it in (the [app] and
    [conn] back pointers are left out). *)
Record GattService1Config : Type := mkServiceConfig {
  svc_objectPath : ObjectPath;
  svc_ID : Z;
  svc_advertised : bool
}.

Record GattService1 : Type := mkService {
  svc_config : GattService1Config;
  svc_properties : GattService1Properties;
  svc_characteristics : gmap ObjectPath GattCharacteristic1
}.

Definition GetDescriptors (c : GattCharacteristic1) : gmap ObjectPath GattDescriptor1 :=
  char_descriptors c.

Definition GetCharacteristics (s : GattService1) : gmap ObjectPath GattCharacteristic1 :=
  svc_characteristics s.

Definition Advertised (s : GattService1) : bool := svc_advertised (svc_config s).

(** ** The advertisement object *)

Record LEAdvertisement1Config : Type := mkAdConfig {
  ad_objectPath : ObjectPath;
  ad_device_path : ObjectPath
}.

Record LEAdvertisement1Properties : Type := mkAdProperties {
  Type_ : string;
  ServiceUUIDs : list string;
  ManufacturerData : gmap string (list Byte.byte);
  SolicitUUIDs : list string;
  ServiceData : gmap string (list Byte.byte);
  Includes : list string;
  LocalName : string;
  Appearance : Z;
  Duration : Z;
  Timeout : Z
}.

Record LEAdvertisement1 : Type := mkAdvertisement {
  ad_config : LEAdvertisement1Config;
  ad_properties : LEAdvertisement1Properties
}.

(** [bluez.LEAdvertisement1Interface], [bluez.GattService1Interface] and
    [bluez.ObjectManagerInterface]: interface names of the daemon. *)
Definition LEAdvertisement1Interface : string := "org.bluez.LEAdvertisement1".
Definition GattService1Interface : string := "org.bluez.GattService1".
Definition ObjectManagerInterface : string := "org.freedesktop.DBus.ObjectManager".
Definition IntrospectableInterface : string := "org.freedesktop.DBus.Introspectable".

(** A [bluez.Properties] value: the property struct of one interface. *)
Inductive Properties : Type :=
| ServiceProps (p : GattService1Properties)
| AdvertisementProps (p : LEAdvertisement1Properties).

(** ** The object manager (ObjectDirectory) *)

(** Modelled from the spec: the object manager keeps, per object path, the
    properties of each interface of the object. *)
Record ObjectManager : Type := mkObjectManager {
  objects : gmap ObjectPath (gmap string Properties)
}.

(** ** Application and its configuration *)

(** What a user callback can observe of the application it is handed. *)
Record AppSnapshot : Type := mkSnapshot {
  snap_name : string;
  snap_path : ObjectPath;
  snap_services : gmap ObjectPath GattService1;
  snap_advertisement : option LEAdvertisement1
}.

Definition GattWriteCallback : Type :=
  AppSnapshot -> string -> string -> slice Byte.byte -> option error.
Definition GattDescriptorWriteCallback : Type :=
  AppSnapshot -> string -> string -> string -> slice Byte.byte -> option error.
Definition GattReadCallback : Type :=
  AppSnapshot -> string -> string -> slice Byte.byte * option error.
Definition GattDescriptorReadCallback : Type :=
  AppSnapshot -> string -> string -> string -> slice Byte.byte * option error.

Record ApplicationConfig : Type := mkConfig {
  cfg_UUIDSuffix : string;
  cfg_UUID : string;
  cfg_ObjectName : string;
  cfg_ObjectPath : ObjectPath;
  cfg_serviceIndex : Z;
  cfg_LocalName : string;
  WriteFunc : option GattWriteCallback;
  ReadFunc : option GattReadCallback;
  DescWriteFunc : option GattDescriptorWriteCallback;
  DescReadFunc : option GattDescriptorReadCallback
}.

Record Application : Type := mkApplication {
  config : ApplicationConfig;
  objectManager : ObjectManager;
  services : gmap ObjectPath GattService1;
  advertisement : option LEAdvertisement1
}.

(** The methods [Path()] and [Interface()] exist on several receivers. *)
Class HasPath (A : Type) : Type := Path : A -> ObjectPath.
#[global] Instance Application_Path : HasPath Application :=
  fun app => cfg_ObjectPath (config app).
#[global] Instance GattService1_Path : HasPath GattService1 :=
  fun s => svc_objectPath (svc_config s).
#[global] Instance LEAdvertisement1_Path : HasPath LEAdvertisement1 :=
  fun ad => ad_objectPath (ad_config ad).

Class HasInterface (A : Type) : Type := Interface : A -> string.
#[global] Instance GattService1_Interface : HasInterface GattService1 :=
  fun _ => GattService1Interface.
#[global] Instance LEAdvertisement1_Interface : HasInterface LEAdvertisement1 :=
  fun _ => LEAdvertisement1Interface.

Definition Name (app : Application) : string := cfg_ObjectName (config app).
Definition GetObjectManager (app : Application) : ObjectManager := objectManager app.
Definition GetServices (app : Application) : gmap ObjectPath GattService1 := services app.

Definition snapshot (app : Application) : AppSnapshot :=
  {| snap_name := Name app;
     snap_path := Path app;
     snap_services := services app;
     snap_advertisement := advertisement app |}.

(** [UUIDSuffix]: the package constant, the Bluetooth base UUID tail. *)
Definition UUIDSuffix : string := "-0000-1000-8000-00805F9B34FB".

(** [GenerateUUID]: reads the base and the suffix from the configuration. *)
Definition GenerateUUID (app : Application) (uuidVal : string) : string :=
  let base := cfg_UUID (config app) in
  let base := if decide (String.length uuidVal = 8%nat) then "" else base in
  base +:+ uuidVal +:+ cfg_UUIDSuffix (config app).

(** ** Callback dispatch *)

Record CallbackError : Type := mkCallbackError {
  msg : string;
  code : Z
}.

Definition Error (e : CallbackError) : string := msg e.

Definition NewCallbackError (code : Z) (msg : string) : CallbackError :=
  {| msg := msg; code := code |}.

Definition CALLBACK_NOT_REGISTERED : Z := -1.
Definition CALLBACK_FUNCTION_ERROR : Z := -2.

Definition HandleRead (app : Application) (srv_uuid uuid : string)
  : slice Byte.byte * option CallbackError :=
  match ReadFunc (config app) with
  | None =>
      let b := make_slice [] in
      (b, Some (NewCallbackError (-1) "No callback registered."))
  | Some f =>
      let '(b, err) := f (snapshot app) srv_uuid uuid in
      let cberr :=
        match err with
        | Some e => Some (NewCallbackError (-2) e)
        | None => None
        end in
      (b, cberr)
  end.

Definition HandleWrite (app : Application) (srv_uuid uuid : string)
    (value : slice Byte.byte) : option CallbackError :=
  match WriteFunc (config app) with
  | None => Some (NewCallbackError (-1) "No callback registered.")
  | Some f =>
      match f (snapshot app) srv_uuid uuid value with
      | Some e => Some (NewCallbackError (-2) e)
      | None => None
      end
  end.

Definition HandleDescriptorRead (app : Application)
    (srv_uuid char_uuid desc_uuid : string)
  : slice Byte.byte * option CallbackError :=
  match DescReadFunc (config app) with
  | None =>
      let b := make_slice [] in
      (b, Some (NewCallbackError (-1) "No callback registered."))
  | Some f =>
      let '(b, err) := f (snapshot app) srv_uuid char_uuid desc_uuid in
      let cberr :=
        match err with
        | Some e => Some (NewCallbackError (-2) e)
        | None => None
        end in
      (b, cberr)
  end.

Definition HandleDescriptorWrite (app : Application)
    (srv_uuid char_uuid desc_uuid : string) (value : slice Byte.byte)
  : option CallbackError :=
  match DescWriteFunc (config app) with
  | None => Some (NewCallbackError (-1) "No callback registered.")
  | Some f =>
      match f (snapshot app) srv_uuid char_uuid desc_uuid value with
      | Some e => Some (NewCallbackError (-2) e)
      | None => None
      end
  end.

(** ** The bus connection and the outside world *)

(** [introspect.Interface], kept by its name, and [introspect.Node]. *)
Record IntrospectInterface : Type := mkInterface {
  iface_name : string
}.

#[warnings="-register-all"]
Inductive Node : Type :=
| mkNode (name : string) (interfaces : list IntrospectInterface) (children : list Node).

Definition node_Name (n : Node) : string :=
  match n with mkNode name _ _ => name end.
Definition node_Interfaces (n : Node) : list IntrospectInterface :=
  match n with mkNode _ interfaces _ => interfaces end.
Definition node_Children (n : Node) : list Node :=
  match n with mkNode _ _ children => children end.

(** [introspect.IntrospectData], [prop.IntrospectData] and
    [bluez.ObjectManagerIntrospectData]. *)
Definition IntrospectData : IntrospectInterface :=
  {| iface_name := "org.freedesktop.DBus.Introspectable" |}.
Definition PropIntrospectData : IntrospectInterface :=
  {| iface_name := "org.freedesktop.DBus.Properties" |}.
Definition ObjectManagerIntrospectData : IntrospectInterface :=
  {| iface_name := "org.freedesktop.DBus.ObjectManager" |}.

(** A value handed to [conn.Export]. *)
Inductive Exported : Type :=
| ExObjectManager
| ExAdvertisement (ad : LEAdvertisement1)
| ExIntrospectable (node : Node).

(** An argument of an outbound method call. *)
Inductive Arg : Type :=
| ArgObjectPath (p : ObjectPath)
| ArgOptions (options : gmap string string).

(** Every interaction with the connection, the daemon, or a part of the
    package that is implemented in other files. *)
Inductive Event : Type :=
| EvRequestName (name : string)
| EvExport (v : Exported) (path : ObjectPath) (iface : string)
| EvCall (dest : string) (path : ObjectPath) (method : string) (args : list Arg)
| EvNewProperties
| EvAddProperties (iface : string) (props : Properties)
| EvPropertiesExpose (path : ObjectPath)
| EvServiceExpose (service : GattService1)
| EvSignalAdded (path : ObjectPath) (object : gmap string Properties)
| EvSignalRemoved (path : ObjectPath).

(** The behaviour of everything outside the application: the error (or nil)
    with which an interaction answers, given the interactions so far, and
    the seeds from which the runtime draws the order of each map walk. *)
Record Env : Type := mkEnv {
  reply : list Event -> Event -> option error;
  rand : nat -> nat
}.

(** The state the operations run in: the application, the handlers exported
    on the connection per path and interface, the log of interactions and
    the number of map walks started so far. *)
Record World : Type := mkWorld {
  w_app : Application;
  w_exports : gmap (ObjectPath * string) Exported;
  w_log : list Event;
  w_tick : nat
}.

(** ** A state monad with panics *)

Inductive result (A : Type) : Type :=
| Ret (a : A)
| Panic (why : string).
Arguments Ret {A} a.
Arguments Panic {A} why.

Definition M (A : Type) : Type := Env -> World -> result A * World.

Definition ret {A} (a : A) : M A := fun _ w => (Ret a, w).

Definition bind {A B} (m : M A) (k : A -> M B) : M B :=
  fun env w =>
    match m env w with
    | (Ret a, w') => k a env w'
    | (Panic why, w') => (Panic why, w')
    end.

Definition panic {A} (why : string) : M A := fun _ w => (Panic why, w).

Notation "'run' x '<~' m ';;' k" := (bind m (fun x => k))
  (at level 10, x name, m at level 99, k at level 200, only parsing).
Notation "'exec' m ';;' k" := (bind m (fun _ => k))
  (at level 10, m at level 99, k at level 200, only parsing).

Definition get_app : M Application := fun _ w => (Ret (w_app w), w).

Definition modify_app (f : Application -> Application) : M unit :=
  fun _ w =>
    (Ret tt, {| w_app := f (w_app w); w_exports := w_exports w;
                w_log := w_log w; w_tick := w_tick w |}).

(** One interaction: it is logged and answered by the environment. *)
Definition interact (e : Event) : M (option error) :=
  fun env w =>
    (Ret (reply env (w_log w) e),
     {| w_app := w_app w; w_exports := w_exports w;
        w_log := w_log w ++ [e]; w_tick := w_tick w |}).

(** [conn.Export]: on success the handler replaces whatever was exported at
    that path and interface. *)
Definition conn_Export (v : Exported) (path : ObjectPath) (iface : string)
  : M (option error) :=
  fun env w =>
    match reply env (w_log w) (EvExport v path iface) with
    | Some e =>
        (Ret (Some e),
         {| w_app := w_app w; w_exports := w_exports w;
            w_log := w_log w ++ [EvExport v path iface]; w_tick := w_tick w |})
    | None =>
        (Ret None,
         {| w_app := w_app w; w_exports := <[(path, iface) := v]> (w_exports w);
            w_log := w_log w ++ [EvExport v path iface]; w_tick := w_tick w |})
    end.

(** [s[1:]] inside the monad. *)
Definition slice_from1 (s : string) : M string :=
  match from1 s with
  | Some rest => ret rest
  | None => panic "slice bounds out of range"
  end.

(** *** Map iteration order *)

(** The order encoded by a seed: repeatedly take the element at position
    [seed mod length], then go on with [seed / length]. *)
Fixpoint shuffle {A} (n : nat) (seed : nat) (l : list A) : list A :=
  match n with
  | O => []
  | S n' =>
      let i := (seed `mod` length l)%nat in
      match l !! i with
      | Some x => x :: shuffle n' (seed `div` length l)%nat (delete i l)
      | None => []
      end
  end.

Definition permute {A} (seed : nat) (l : list A) : list A :=
  shuffle (length l) seed l.

(** [for k, v := range m]: the entries of [m] in the order of the next seed. *)
Definition go_range {V} (m : gmap ObjectPath V) : M (list (ObjectPath * V)) :=
  fun env w =>
    (Ret (permute (rand env (w_tick w)) (map_to_list m)),
     {| w_app := w_app w; w_exports := w_exports w;
        w_log := w_log w; w_tick := S (w_tick w) |}).

(** The body of a loop run over the entries, threading an accumulator. *)
Fixpoint foldM {A B} (f : B -> A -> M B) (acc : B) (l : list A) : M B :=
  match l with
  | [] => ret acc
  | x :: l' => run acc' <~ f acc x ;; foldM f acc' l'
  end.

(** ** The advertisement object's operations *)

(** [NewLEAdvertisement1]: a property table is created and filled; either
    step can fail, and then no object is returned. *)
Definition NewLEAdvertisement1 (config : LEAdvertisement1Config)
    (props : LEAdvertisement1Properties)
  : M (option LEAdvertisement1 * option error) :=
  run err <~ interact EvNewProperties ;;
  match err with
  | Some e => ret (None, Some e)
  | None =>
      let a := {| ad_config := config; ad_properties := props |} in
      run err <~ interact (EvAddProperties (Interface a) (AdvertisementProps props)) ;;
      match err with
      | Some e => ret (None, Some e)
      | None => ret (Some a, None)
      end
  end.

(** [Properties()] of the advertisement: one interface, one property struct. *)
Definition ad_Properties (ad : LEAdvertisement1) : gmap string Properties :=
  <[Interface ad := AdvertisementProps (ad_properties ad)]> ∅.

(** [Release()] has nothing to do. *)
Definition Release (ad : LEAdvertisement1) : option error := None.

Definition ad_Expose (ad : LEAdvertisement1) : M (option error) :=
  run err <~ conn_Export (ExAdvertisement ad) (Path ad) (Interface ad) ;;
  match err with
  | Some e => ret (Some e)
  | None =>
      run entries <~ go_range (ad_Properties ad) ;;
      exec foldM (fun (_ : unit) '(iface, props) =>
                    exec interact (EvAddProperties iface props) ;; ret tt)
                 tt entries ;;
      exec interact (EvPropertiesExpose (Path ad)) ;;
      let node :=
        mkNode ""
          [IntrospectData; PropIntrospectData; {| iface_name := Interface ad |}]
          [] in
      run err <~ conn_Export (ExIntrospectable node) (Path ad)
                   "org.freedesktop.DBus.Introspectable" ;;
      match err with
      | Some e => ret (Some e)
      | None => ret None
      end
  end.

(** ** Service nodes and the object manager *)

(** Modelled from the spec: [NewGattService1] is defined in another file;
    it constructs an unexposed service node bound to the given path and
    advertised flag, in the way [NewLEAdvertisement1] builds its object. *)
Definition NewGattService1 (c : GattService1Config) (props : GattService1Properties)
  : M (option GattService1 * option error) :=
  run err <~ interact EvNewProperties ;;
  match err with
  | Some e => ret (None, Some e)
  | None =>
      let s := {| svc_config := c; svc_properties := props;
                  svc_characteristics := ∅ |} in
      run err <~ interact (EvAddProperties (Interface s) (ServiceProps props)) ;;
      match err with
      | Some e => ret (None, Some e)
      | None => ret (Some s, None)
      end
  end.

(** Modelled from the spec: [Properties()] of a service, one interface with
    the service's property struct, as for the advertisement. *)
Definition svc_Properties (s : GattService1) : gmap string Properties :=
  <[Interface s := ServiceProps (svc_properties s)]> ∅.

(** Modelled from the spec: [service.Expose()] is defined in another file;
    it registers the service and its descendants for export and may fail.
    It is one interaction, answered by the environment. *)
Definition svc_Expose (s : GattService1) : M (option error) :=
  interact (EvServiceExpose s).

Definition set_objectManager (om : ObjectManager) (app : Application) : Application :=
  {| config := config app; objectManager := om;
     services := services app; advertisement := advertisement app |}.

Definition set_services (m : gmap ObjectPath GattService1) (app : Application)
  : Application :=
  {| config := config app; objectManager := objectManager app;
     services := m; advertisement := advertisement app |}.

Definition set_advertisement (ad : option LEAdvertisement1) (app : Application)
  : Application :=
  {| config := config app; objectManager := objectManager app;
     services := services app; advertisement := ad |}.

Definition set_serviceIndex (i : Z) (app : Application) : Application :=
  let c := config app in
  {| config :=
       {| cfg_UUIDSuffix := cfg_UUIDSuffix c; cfg_UUID := cfg_UUID c;
          cfg_ObjectName := cfg_ObjectName c; cfg_ObjectPath := cfg_ObjectPath c;
          cfg_serviceIndex := i; cfg_LocalName := cfg_LocalName c;
          WriteFunc := WriteFunc c; ReadFunc := ReadFunc c;
          DescWriteFunc := DescWriteFunc c; DescReadFunc := DescReadFunc c |};
     objectManager := objectManager app;
     services := services app; advertisement := advertisement app |}.

(** Modelled from the spec: [AddObject] and [RemoveObject] of the object
    manager are defined in another file; the entry is written (or deleted,
    when present) and then the add (or remove) notification is emitted. *)
Definition AddObject (path : ObjectPath) (object : gmap string Properties)
  : M (option error) :=
  exec modify_app (fun app =>
         set_objectManager
           {| objects := <[path := object]> (objects (objectManager app)) |} app) ;;
  interact (EvSignalAdded path object).

Definition RemoveObject (path : ObjectPath) : M (option error) :=
  run app <~ get_app ;;
  match objects (objectManager app) !! path with
  | Some _ =>
      exec modify_app (fun app =>
             set_objectManager
               {| objects := delete path (objects (objectManager app)) |} app) ;;
      interact (EvSignalRemoved path)
  | None => ret None
  end.

(** ** Application: the object tree *)

(** The innermost loop of [exportTree]: one child per descriptor path. *)
Definition descriptorNodes (childrenNode : list Node) (char : GattCharacteristic1)
  : M (list Node) :=
  run entries <~ go_range (GetDescriptors char) ;;
  foldM (fun childrenNode '(descPath, _) =>
           run name <~ slice_from1 descPath ;;
           ret (childrenNode ++ [mkNode name [] []]))
        childrenNode entries.

(** The middle loop: one child per characteristic path, then its descriptors. *)
Definition characteristicNodes (childrenNode : list Node) (service : GattService1)
  : M (list Node) :=
  run entries <~ go_range (GetCharacteristics service) ;;
  foldM (fun childrenNode '(charPath, char) =>
           run name <~ slice_from1 charPath ;;
           descriptorNodes (childrenNode ++ [mkNode name [] []]) char)
        childrenNode entries.

(** The outer loop: one child per service path, then its characteristics. *)
Definition serviceNodes (app : Application) : M (list Node) :=
  run entries <~ go_range (GetServices app) ;;
  foldM (fun childrenNode '(servicePath, service) =>
           run name <~ slice_from1 servicePath ;;
           characteristicNodes (childrenNode ++ [mkNode name [] []]) service)
        [] entries.

Definition exportTree : M (option error) :=
  run app <~ get_app ;;
  run childrenNode <~ serviceNodes app ;;
  let node := mkNode "" [IntrospectData; ObjectManagerIntrospectData] childrenNode in
  conn_Export (ExIntrospectable node) (Path app)
    "org.freedesktop.DBus.Introspectable".

(** [CreateService]: the counter is bumped first, whatever happens next. *)
Definition CreateService_config (app : Application) (advertised_optional : list bool)
  : GattService1Config :=
  let appPath := Path app in
  let appPath := if decide (appPath = "/") then "" else appPath in
  let service_advertised :=
    match advertised_optional with
    | [] => false
    | b :: _ => b
    end in
  let path := appPath +:+ "/service" +:+ Itoa (cfg_serviceIndex (config app)) in
  {| svc_objectPath := path;
     svc_ID := cfg_serviceIndex (config app);
     svc_advertised := service_advertised |}.

Definition CreateService (props : GattService1Properties)
    (advertised_optional : list bool)
  : M (option GattService1 * option error) :=
  exec modify_app (fun app =>
         set_serviceIndex (wrap_int (cfg_serviceIndex (config app) + 1)) app) ;;
  run app <~ get_app ;;
  let c := CreateService_config app advertised_optional in
  NewGattService1 c props.

Definition AddService (service : GattService1) : M (option error) :=
  exec modify_app (fun app =>
         set_services (<[Path service := service]> (services app)) app) ;;
  run err <~ svc_Expose service ;;
  match err with
  | Some e => ret (Some e)
  | None =>
      run err <~ exportTree ;;
      match err with
      | Some e => ret (Some e)
      | None =>
          run err <~ AddObject (Path service) (svc_Properties service) ;;
          match err with
          | Some e => ret (Some e)
          | None => ret err
          end
      end
  end.

Definition RemoveService (service : GattService1) : M (option error) :=
  run app <~ get_app ;;
  match services app !! Path service with
  | Some _ =>
      exec modify_app (fun app =>
             set_services (delete (Path service) (services app)) app) ;;
      run err <~ RemoveObject (Path service) ;;
      match err with
      | Some e => ret (Some e)
      | None =>
          run err <~ exportTree ;;
          match err with
          | Some e => ret (Some e)
          | None => ret None
          end
      end
  | None => ret None
  end.

(** [expose]: request the bus name (only the error of the request is looked
    at, its reply code is dropped), export the object manager, publish the
    tree. *)
Definition expose : M (option error) :=
  run app <~ get_app ;;
  run err <~ interact (EvRequestName (Name app)) ;;
  match err with
  | Some e => ret (Some e)
  | None =>
      run err <~ conn_Export ExObjectManager (Path app) ObjectManagerInterface ;;
      match err with
      | Some e => ret (Some e)
      | None =>
          run err <~ exportTree ;;
          match err with
          | Some e => ret (Some e)
          | None => ret None
          end
      end
  end.

Definition Run : M (option error) :=
  run err <~ expose ;;
  match err with
  | Some e => ret (Some e)
  | None => ret None
  end.

(** ** Application: advertising *)

(** The loop of [StartAdvertising] over the services. *)
Definition advertisedUUIDs (app : Application) : M (list string) :=
  run entries <~ go_range (services app) ;;
  foldM (fun serv_uuids '(_, serv) =>
           if Advertised serv
           then ret (serv_uuids ++ [UUID (svc_properties serv)])
           else ret serv_uuids)
        [] entries.

Definition RegisterAdvertisement : string :=
  "org.bluez.LEAdvertisingManager1.RegisterAdvertisement".
Definition UnregisterAdvertisement : string :=
  "org.bluez.LEAdvertisingManager1.UnregisterAdvertisement".

Definition StartAdvertising (device_name : string) : M (option error) :=
  run app <~ get_app ;;
  match advertisement app with
  | Some _ => ret None
  | None =>
      let path := "/org/bluez/advertisement/0" in
      let device_objpath := "/org/bluez/" +:+ device_name in
      let config' := {| ad_objectPath := path; ad_device_path := device_objpath |} in
      run serv_uuids <~ advertisedUUIDs app ;;
      let props :=
        {| Type_ := "peripheral";
           ServiceUUIDs := serv_uuids;
           ManufacturerData := ∅;
           SolicitUUIDs := [];
           ServiceData := ∅;
           Includes := [];
           LocalName := cfg_LocalName (config app);
           Appearance := 0;
           Duration := 2;
           Timeout := 60 |} in
      run created <~ NewLEAdvertisement1 config' props ;;
      let '(ad, err) := created in
      exec modify_app (set_advertisement ad) ;;
      match err with
      | Some e => ret (Some e)
      | None =>
          match ad with
          | None => panic "nil pointer dereference"
          | Some a =>
              run err <~ ad_Expose a ;;
              match err with
              | Some e => ret (Some e)
              | None =>
                  let options : gmap string string := ∅ in
                  run err <~ interact
                    (EvCall "org.bluez" device_objpath RegisterAdvertisement
                       [ArgObjectPath (ad_objectPath config'); ArgOptions options]) ;;
                  match err with
                  | Some e => ret (Some e)
                  | None => ret None
                  end
              end
          end
      end
  end.

Definition StopAdvertising : M (option error) :=
  run app <~ get_app ;;
  match advertisement app with
  | None => ret None
  | Some ad =>
      run err <~ interact
        (EvCall "org.bluez" (ad_device_path (ad_config ad)) UnregisterAdvertisement
           [ArgObjectPath (ad_objectPath (ad_config ad))]) ;;
      exec modify_app (set_advertisement None) ;;
      match err with
      | Some e => ret (Some e)
      | None => ret None
      end
  end.

(** ** Observations used by the specifications *)

(** The ObjectDirectory snapshot and the introspection tree published at the
    application's root. *)
Definition directory (w : World) : gmap ObjectPath (gmap string Properties) :=
  objects (objectManager (w_app w)).

Definition published_tree (w : World) : option Exported :=
  w_exports w !! (Path (w_app w), "org.freedesktop.DBus.Introspectable").

Definition serviceIndex (w : World) : Z := cfg_serviceIndex (config (w_app w)).

(** The outbound method calls among the logged interactions. *)
Definition is_call (e : Event) : bool :=
  match e with
  | EvCall _ _ _ _ => true
  | _ => false
  end.

Definition daemon_calls (l : list Event) : list Event := List.filter is_call l.

(** Every path registered in the tree: services, their characteristics,
    the descriptors of those. *)
Definition descriptor_paths (c : GattCharacteristic1) : list ObjectPath :=
  (map_to_list (GetDescriptors c)).*1.

Definition characteristic_paths (s : GattService1) : list ObjectPath :=
  map_to_list (GetCharacteristics s) ≫= λ '(charPath, c), charPath :: descriptor_paths c.

Definition registered_paths (app : Application) : list ObjectPath :=
  map_to_list (GetServices app) ≫= λ '(servicePath, s), servicePath :: characteristic_paths s.

(** A path with a leading separator, and a path with at least one byte. *)
Definition rooted (p : ObjectPath) : Prop := ∃ name, p = "/" +:+ name.
Definition nonempty (p : ObjectPath) : Prop := p <> "".

(** The UUIDs of the services flagged as advertised. *)
Definition advertised_uuids (app : Application) : list string :=
  map_to_list (services app) ≫= λ '(_, s),
    if Advertised s then [UUID (svc_properties s)] else [].

(** The world with [n] more map walks started. *)
Definition advance (n : nat) (w : World) : World :=
  {| w_app := w_app w; w_exports := w_exports w;
     w_log := w_log w; w_tick := (w_tick w + n)%nat |}.

(** The child node that [exportTree] makes for a path. *)
Definition leaf_of (p : ObjectPath) : Node :=
  mkNode (default "" (from1 p)) [] [].

(** The path a child node of the root stands for. *)
Definition child_path (c : Node) : ObjectPath := "/" +:+ node_Name c.

(** The export of the tree made by [exportTree] in world [w]. *)
Definition tree_export (w : World) (node : Node) : Event :=
  EvExport (ExIntrospectable node) (Path (w_app w))
    "org.freedesktop.DBus.Introspectable".

(** An action that leaves the application's configuration as it found it,
    however it ends. *)
Definition keeps_config {A} (m : M A) : Prop :=
  forall env w, config (w_app (m env w).2) = config (w_app w).

(** The range of a Go [int]. *)
Definition is_int (z : Z) : Prop := minInt <= z <= maxInt.

(** The prefix that [CreateService] puts before ["/service<N>"]. *)
Definition service_prefix (app : Application) : string :=
  if decide (Path app = "/") then "" else Path app.

(** A run of tree operations issued by the caller.  It stops at the first
    panic; it returns the paths handed to [NewGattService1] by the
    [CreateService] calls it made, and whether it ran to the end. *)
Inductive Call : Type :=
| CallCreateService (props : GattService1Properties) (advertised_optional : list bool)
| CallAddService (service : GattService1)
| CallRemoveService (service : GattService1).

Definition is_create (c : Call) : bool :=
  match c with
  | CallCreateService _ _ => true
  | _ => false
  end.

Definition creations (cs : list Call) : nat := length (List.filter is_create cs).

Fixpoint run_calls (cs : list Call) (env : Env) (w : World)
  : list ObjectPath * bool * World :=
  match cs with
  | [] => ([], true, w)
  | CallCreateService props adv :: cs' =>
      let '(r, w1) := CreateService props adv env w in
      let path := svc_objectPath (CreateService_config (w_app w1) adv) in
      match r with
      | Ret _ => let '(paths, fin, w2) := run_calls cs' env w1 in (path :: paths, fin, w2)
      | Panic _ => ([path], false, w1)
      end
  | CallAddService s :: cs' =>
      let '(r, w1) := AddService s env w in
      match r with
      | Ret _ => run_calls cs' env w1
      | Panic _ => ([], false, w1)
      end
  | CallRemoveService s :: cs' =>
      let '(r, w1) := RemoveService s env w in
      match r with
      | Ret _ => run_calls cs' env w1
      | Panic _ => ([], false, w1)
      end
  end.

(** ** Sample configurations, environments and worlds *)

Definition sample_config : ApplicationConfig :=
  {| cfg_UUIDSuffix := UUIDSuffix; cfg_UUID := "0000";
     cfg_ObjectName := "org.example.app"; cfg_ObjectPath := "/org/example/app";
     cfg_serviceIndex := 0; cfg_LocalName := "sample";
     WriteFunc := None; ReadFunc := None;
     DescWriteFunc := None; DescReadFunc := None |}.

Definition with_callbacks (wf : option GattWriteCallback) (rf : option GattReadCallback)
    (dwf : option GattDescriptorWriteCallback) (drf : option GattDescriptorReadCallback)
    (c : ApplicationConfig) : ApplicationConfig :=
  {| cfg_UUIDSuffix := cfg_UUIDSuffix c; cfg_UUID := cfg_UUID c;
     cfg_ObjectName := cfg_ObjectName c; cfg_ObjectPath := cfg_ObjectPath c;
     cfg_serviceIndex := cfg_serviceIndex c; cfg_LocalName := cfg_LocalName c;
     WriteFunc := wf; ReadFunc := rf; DescWriteFunc := dwf; DescReadFunc := drf |}.

Definition new_app (c : ApplicationConfig) : Application :=
  {| config := c; objectManager := {| objects := ∅ |};
     services := ∅; advertisement := None |}.

(** No callback registered. *)
Definition sample_app : Application := new_app sample_config.

(** Callbacks that fail, returning the bytes they were working on. *)
Definition failing_app : Application :=
  new_app (with_callbacks
    (Some (fun _ _ _ _ => Some "write refused"))
    (Some (fun _ _ _ => (make_slice [Byte.x01], Some "read refused")))
    (Some (fun _ _ _ _ _ => Some "descriptor write refused"))
    (Some (fun _ _ _ _ => (nil_slice, Some "descriptor read refused")))
    sample_config).

(** Callbacks that succeed. *)
Definition serving_app : Application :=
  new_app (with_callbacks
    (Some (fun _ _ _ _ => None))
    (Some (fun _ _ _ => (make_slice [Byte.x2a; Byte.x2b], None)))
    (Some (fun _ _ _ _ _ => None))
    (Some (fun _ _ _ _ => (make_slice [Byte.x07], None)))
    sample_config).

(** A configuration whose suffix was left unset, and one with a base only. *)
Definition unset_suffix_app : Application :=
  new_app {| cfg_UUIDSuffix := ""; cfg_UUID := "0000";
             cfg_ObjectName := "org.example.app"; cfg_ObjectPath := "/org/example/app";
             cfg_serviceIndex := 0; cfg_LocalName := "";
             WriteFunc := None; ReadFunc := None;
             DescWriteFunc := None; DescReadFunc := None |}.

(** An application exported at the root path. *)
Definition root_app : Application :=
  new_app {| cfg_UUIDSuffix := UUIDSuffix; cfg_UUID := "0000";
             cfg_ObjectName := "org.example.root"; cfg_ObjectPath := "/";
             cfg_serviceIndex := 0; cfg_LocalName := "root";
             WriteFunc := None; ReadFunc := None;
             DescWriteFunc := None; DescReadFunc := None |}.

(** A run that creates two services, registers and removes the first, and
    creates a third. *)
Definition sample_calls : list Call :=
  [CallCreateService {| Primary := true; UUID := "0000180D-0000-1000-8000-00805F9B34FB" |} [true];
   CallCreateService {| Primary := true; UUID := "0000180F-0000-1000-8000-00805F9B34FB" |} [];
   CallAddService
     {| svc_config := {| svc_objectPath := "/org/example/app/service1";
                         svc_ID := 1; svc_advertised := true |};
        svc_properties := {| Primary := true; UUID := "0000180D-0000-1000-8000-00805F9B34FB" |};
        svc_characteristics := ∅ |};
   CallRemoveService
     {| svc_config := {| svc_objectPath := "/org/example/app/service1";
                         svc_ID := 1; svc_advertised := true |};
        svc_properties := {| Primary := true; UUID := "0000180D-0000-1000-8000-00805F9B34FB" |};
        svc_characteristics := ∅ |};
   CallCreateService {| Primary := false; UUID := "0000180A-0000-1000-8000-00805F9B34FB" |} [false]].

(** An application whose counter stands at the largest [int]. *)
Definition saturated_app : Application := set_serviceIndex maxInt sample_app.

Definition heart_rate_props : GattService1Properties :=
  {| Primary := true; UUID := "0000180D-0000-1000-8000-00805F9B34FB" |}.

Definition battery_props : GattService1Properties :=
  {| Primary := true; UUID := "0000180F-0000-1000-8000-00805F9B34FB" |}.

Definition heart_rate_service : GattService1 :=
  {| svc_config := {| svc_objectPath := "/org/example/app/service1";
                      svc_ID := 1; svc_advertised := true |};
     svc_properties := heart_rate_props;
     svc_characteristics :=
       <["/org/example/app/service1/char1" :=
           {| char_UUID := "00002A37-0000-1000-8000-00805F9B34FB";
              char_descriptors :=
                <["/org/example/app/service1/char1/desc1" :=
                    {| desc_UUID := "00002902-0000-1000-8000-00805F9B34FB" |}]> ∅ |}]> ∅ |}.

Definition battery_service : GattService1 :=
  {| svc_config := {| svc_objectPath := "/org/example/app/service2";
                      svc_ID := 2; svc_advertised := false |};
     svc_properties := battery_props;
     svc_characteristics := ∅ |}.

(** A service built from a zero-valued configuration: its path is empty. *)
Definition pathless_service : GattService1 :=
  {| svc_config := {| svc_objectPath := ""; svc_ID := 0; svc_advertised := false |};
     svc_properties := battery_props;
     svc_characteristics := ∅ |}.

Definition world_of (app : Application) : World :=
  {| w_app := app; w_exports := ∅; w_log := []; w_tick := 0 |}.

Definition sample_world : World := world_of sample_app.

(** A world with both services registered. *)
Definition populated_world : World :=
  world_of (set_services
              (<[Path heart_rate_service := heart_rate_service]>
                 (<[Path battery_service := battery_service]> ∅))
              sample_app).

(** A world whose tree holds the service without a path. *)
Definition pathless_world : World :=
  world_of (set_services (<[Path pathless_service := pathless_service]> ∅) sample_app).

(** A world that is already advertising. *)
Definition advertising_world : World :=
  world_of (set_advertisement
              (Some {| ad_config := {| ad_objectPath := "/org/bluez/advertisement/0";
                                       ad_device_path := "/org/bluez/hci0" |};
                       ad_properties :=
                         {| Type_ := "peripheral"; ServiceUUIDs := [];
                            ManufacturerData := ∅; SolicitUUIDs := [];
                            ServiceData := ∅; Includes := [];
                            LocalName := "sample"; Appearance := 0;
                            Duration := 2; Timeout := 60 |} |})
              sample_app).

(** Environments: everything succeeds; exporting a service fails; every
    [conn.Export] fails; the daemon refuses every method call. *)
Definition calm_env : Env := {| reply := fun _ _ => None; rand := fun n => n |}.

Definition expose_failing_env : Env :=
  {| reply := fun _ e =>
       match e with
       | EvServiceExpose _ => Some "export failed"
       | _ => None
       end;
     rand := fun n => n |}.

Definition export_failing_env : Env :=
  {| reply := fun _ e =>
       match e with
       | EvExport _ _ _ => Some "dbus: invalid path name"
       | _ => None
       end;
     rand := fun n => n |}.

(** An environment whose map walks change their order every fourth walk. *)
Definition drifting_env : Env :=
  {| reply := fun _ _ => None; rand := fun n => (n `div` 4)%nat |}.

Definition refusing_env : Env :=
  {| reply := fun _ e =>
       match e with
       | EvCall _ _ _ _ => Some "org.bluez.Error.Failed"
       | _ => None
       end;
     rand := fun n => (3 * n + 1)%nat |}.

(** ** Construction of the application *)

(** [NewApplication].  The configuration's connection is kept outside the
    model: [has_conn] tells whether [config.conn] is set, [SystemBus] is the
    answer of [dbus.SystemBus()] should it be asked for, and
    [NewObjectManager] the answer of the object manager's constructor. *)
Definition NewApplication (config : ApplicationConfig) (has_conn : bool)
    (SystemBus : option error) (NewObjectManager : ObjectManager * option error)
  : option Application * option error :=
  if decide (cfg_ObjectName config = "") then
    (None, Some "objectName is required")
  else if decide (cfg_ObjectPath config = "") then
    (None, Some "objectPath is required")
  else
    match (if has_conn then None else SystemBus) with
    | Some e => (None, Some e)
    | None =>
        let '(om, err) := NewObjectManager in
        match err with
        | Some e => (None, Some e)
        | None =>
            (Some {| config := config; objectManager := om;
                     services := ∅; advertisement := None |}, None)
        end
    end.

(** ** Frames *)

(** An action that leaves an observation of the world as it found it,
    however it ends. *)
Definition keeps {X A} (f : World -> X) (m : M A) : Prop :=
  forall env w, f (m env w).2 = f w.

(** The calls sent to the daemon so far, and the services registered. *)
Definition calls_of (w : World) : list Event := daemon_calls (w_log w).
Definition services_of (w : World) : gmap ObjectPath GattService1 :=
  services (w_app w).

(** The advertisement that [StartAdvertising] builds for a device name, a
    local name and a list of UUIDs. *)
Definition advertisement_for (device_name local_name : string) (uuids : list string)
  : LEAdvertisement1 :=
  {| ad_config := {| ad_objectPath := "/org/bluez/advertisement/0";
                     ad_device_path := "/org/bluez/" +:+ device_name |};
     ad_properties :=
       {| Type_ := "peripheral"; ServiceUUIDs := uuids;
          ManufacturerData := ∅; SolicitUUIDs := []; ServiceData := ∅;
          Includes := []; LocalName := local_name;
          Appearance := 0; Duration := 2; Timeout := 60 |} |}.

(** The two calls to the daemon's advertising manager. *)
Definition register_call (device_name : string) : Event :=
  EvCall "org.bluez" ("/org/bluez/" +:+ device_name)
    "org.bluez.LEAdvertisingManager1.RegisterAdvertisement"
    [ArgObjectPath "/org/bluez/advertisement/0"; ArgOptions ∅].

Definition unregister_call (device_name : string) : Event :=
  EvCall "org.bluez" ("/org/bluez/" +:+ device_name)
    "org.bluez.LEAdvertisingManager1.UnregisterAdvertisement"
    [ArgObjectPath "/org/bluez/advertisement/0"].

(** The introspection node exported for the advertisement object. *)
Definition advertisement_node (ad : LEAdvertisement1) : Node :=
  mkNode "" [IntrospectData; PropIntrospectData; {| iface_name := Interface ad |}] [].

(** The steps that [StartAdvertising] checks before it calls the daemon all
    answer nil in the run from world [w]: the creation of the property
    table, its filling, the export of the advertisement object and the
    export of its introspection data, each at the log the run has reached. *)
Definition advertisement_steps_succeed (env : Env) (w : World) (device_name : string)
  : Prop :=
  forall uuids w0,
    advertisedUUIDs (w_app w) env w = (Ret uuids, w0) ->
    let ad := advertisement_for device_name (cfg_LocalName (config (w_app w))) uuids in
    let filled := EvAddProperties LEAdvertisement1Interface
                    (AdvertisementProps (ad_properties ad)) in
    let exported := EvExport (ExAdvertisement ad) (Path ad) LEAdvertisement1Interface in
    reply env (w_log w) EvNewProperties = None
    /\ reply env (w_log w ++ [EvNewProperties]) filled = None
    /\ reply env (w_log w ++ [EvNewProperties; filled]) exported = None
    /\ reply env (w_log w ++ [EvNewProperties; filled; exported; filled;
                              EvPropertiesExpose (Path ad)])
         (EvExport (ExIntrospectable (advertisement_node ad)) (Path ad)
            "org.freedesktop.DBus.Introspectable") = None.

(** An environment in which the second export of an object fails. *)
Definition second_export_failing_env : Env :=
  {| reply := fun _ e =>
       match e with
       | EvExport (ExIntrospectable _) _ _ => Some "dbus: invalid path name"
       | _ => None
       end;
     rand := fun n => n |}.

(** An environment in which the request for the bus name returns an error. *)
Definition name_refusing_env : Env :=
  {| reply := fun _ e =>
       match e with
       | EvRequestName _ => Some "name already taken"
       | _ => None
       end;
     rand := fun n => n |}.


(** * Properties *)

(** ** Map walks *)

Lemma shuffle_Permutation {A} (n seed : nat) (l : list A) :
  length l = n -> shuffle n seed l ≡ₚ l.
Proof.
  revert seed l. induction n as [| n IH]; intros seed l Hlen.
  - destruct l; [reflexivity | discriminate].
  - cbn [shuffle].
    assert (Hlt : (seed `mod` length l < length l)%nat)
      by (apply Nat.mod_upper_bound; lia).
    destruct (lookup_lt_is_Some_2 _ _ Hlt) as [x Hx].
    rewrite Hx.
    transitivity (x :: delete (seed `mod` length l)%nat l);
      [| symmetry; apply delete_Permutation; exact Hx].
    apply Permutation_skip, IH.
    rewrite length_delete by eauto. lia.
Qed.

Lemma permute_Permutation {A} (seed : nat) (l : list A) : permute seed l ≡ₚ l.
Proof. apply shuffle_Permutation. reflexivity. Qed.

Lemma permute_singleton {A} (seed : nat) (x : A) : permute seed [x] = [x].
Proof.
  unfold permute; cbn [length shuffle].
  rewrite Nat.mod_1_r. reflexivity.
Qed.

Lemma advance_advance (a b : nat) (w : World) :
  advance b (advance a w) = advance (a + b) w.
Proof. unfold advance; cbn. f_equal. lia. Qed.

Lemma go_range_run {V} (m : gmap ObjectPath V) (env : Env) (w : World) :
  exists l, l ≡ₚ map_to_list m /\ go_range m env w = (Ret l, advance 1 w).
Proof.
  exists (permute (rand env (w_tick w)) (map_to_list m)).
  split; [apply permute_Permutation |].
  unfold go_range, advance. do 3 f_equal. lia.
Qed.

Lemma from1_nonempty (p : ObjectPath) :
  nonempty p -> exists name, from1 p = Some name /\ leaf_of p = mkNode name [] [].
Proof.
  destruct p as [| a name]; intros Hp; [contradiction Hp; reflexivity |].
  exists name. split; reflexivity.
Qed.

Lemma rooted_nonempty (p : ObjectPath) : rooted p -> nonempty p.
Proof. intros [name ->]. discriminate. Qed.

Lemma leaf_names (ps : list ObjectPath) :
  Forall nonempty ps -> Some <$> (node_Name <$> (leaf_of <$> ps)) = from1 <$> ps.
Proof.
  induction 1 as [| p ps Hp _ IH]; [reflexivity |].
  destruct (from1_nonempty p Hp) as (name & Hname & Hleaf).
  rewrite !fmap_cons, IH, Hleaf, Hname. reflexivity.
Qed.

Lemma child_path_leaf_of (p : ObjectPath) : rooted p -> child_path (leaf_of p) = p.
Proof. intros [name ->]. reflexivity. Qed.

Lemma child_paths_leaves (ps : list ObjectPath) :
  Forall rooted ps -> child_path <$> (leaf_of <$> ps) = ps.
Proof.
  induction 1 as [| p ps Hp _ IH]; [reflexivity |].
  cbn. rewrite child_path_leaf_of, IH by assumption. reflexivity.
Qed.

(** ** The three loops of [exportTree] *)

Lemma descriptor_loop (env : Env) {V} (l : list (ObjectPath * V)) :
  forall (acc : list Node) (w : World),
    Forall nonempty l.*1 ->
    foldM (fun childrenNode '(descPath, _) =>
             run name <~ slice_from1 descPath ;;
             ret (childrenNode ++ [mkNode name [] []]))
          acc l env w
    = (Ret (acc ++ (leaf_of <$> l.*1)), w).
Proof.
  induction l as [| [p v] l IH]; intros acc w Hroot.
  - cbn. rewrite app_nil_r. reflexivity.
  - cbn in Hroot. apply Forall_cons in Hroot as [Hp Hl].
    destruct (from1_nonempty p Hp) as (name & Hname & Hleaf).
    cbn [foldM]. unfold bind at 1. unfold slice_from1, bind.
    rewrite Hname. cbn [ret].
    rewrite IH by assumption.
    cbn [fmap list_fmap fst]. rewrite Hleaf, <- app_assoc. reflexivity.
Qed.

Lemma descriptorNodes_run (env : Env) (acc : list Node) (c : GattCharacteristic1)
    (w : World) :
  Forall nonempty (descriptor_paths c) ->
  exists ps, ps ≡ₚ descriptor_paths c
    /\ descriptorNodes acc c env w = (Ret (acc ++ (leaf_of <$> ps)), advance 1 w).
Proof.
  intros Hroot. unfold descriptorNodes, bind.
  destruct (go_range_run (GetDescriptors c) env w) as (l & Hperm & ->).
  exists l.*1. split.
  - unfold descriptor_paths. rewrite Hperm. reflexivity.
  - apply descriptor_loop. unfold descriptor_paths in Hroot.
    rewrite Hperm. exact Hroot.
Qed.

Lemma characteristic_loop (env : Env) (l : list (ObjectPath * GattCharacteristic1)) :
  forall (acc : list Node) (w : World),
    Forall nonempty (l ≫= λ '(charPath, c), charPath :: descriptor_paths c) ->
    exists ps n,
      ps ≡ₚ (l ≫= λ '(charPath, c), charPath :: descriptor_paths c)
      /\ foldM (fun childrenNode '(charPath, char) =>
                  run name <~ slice_from1 charPath ;;
                  descriptorNodes (childrenNode ++ [mkNode name [] []]) char)
               acc l env w
         = (Ret (acc ++ (leaf_of <$> ps)), advance n w).
Proof.
  induction l as [| [p c] l IH]; intros acc w Hroot.
  - exists [], 0%nat. split; [reflexivity |].
    cbn. rewrite app_nil_r. unfold advance.
    rewrite Nat.add_0_r. destruct w; reflexivity.
  - rewrite bind_cons in Hroot. apply Forall_app in Hroot as [Hhd Hl].
    apply Forall_cons in Hhd as [Hp Hds].
    destruct (from1_nonempty p Hp) as (name & Hname & Hleaf).
    destruct (descriptorNodes_run env (acc ++ [mkNode name [] []]) c w Hds)
      as (ps1 & Hps1 & Hrun1).
    destruct (IH ((acc ++ [mkNode name [] []]) ++ (leaf_of <$> ps1)) (advance 1 w) Hl)
      as (ps2 & n & Hps2 & Hrun2).
    exists (p :: ps1 ++ ps2), (1 + n)%nat. split.
    + rewrite bind_cons. cbn. rewrite Hps1, Hps2. reflexivity.
    + cbn [foldM]. unfold bind at 1. unfold slice_from1 at 1, bind at 1.
      rewrite Hname. cbn [ret]. rewrite Hrun1, Hrun2.
      rewrite advance_advance. f_equal. f_equal.
      rewrite fmap_cons, fmap_app, Hleaf, <- !app_assoc. reflexivity.
Qed.

Lemma characteristicNodes_run (env : Env) (acc : list Node) (s : GattService1)
    (w : World) :
  Forall nonempty (characteristic_paths s) ->
  exists ps n, ps ≡ₚ characteristic_paths s
    /\ characteristicNodes acc s env w = (Ret (acc ++ (leaf_of <$> ps)), advance n w).
Proof.
  intros Hroot. unfold characteristicNodes, bind.
  destruct (go_range_run (GetCharacteristics s) env w) as (l & Hperm & ->).
  unfold characteristic_paths in *. rewrite <- Hperm in Hroot.
  destruct (characteristic_loop env l acc (advance 1 w) Hroot) as (ps & n & Hps & Hrun).
  exists ps, (1 + n)%nat. split.
  - rewrite Hps, Hperm. reflexivity.
  - cbv beta iota. rewrite <- advance_advance. exact Hrun.
Qed.

Lemma service_loop (env : Env) (l : list (ObjectPath * GattService1)) :
  forall (acc : list Node) (w : World),
    Forall nonempty (l ≫= λ '(servicePath, s), servicePath :: characteristic_paths s) ->
    exists ps n,
      ps ≡ₚ (l ≫= λ '(servicePath, s), servicePath :: characteristic_paths s)
      /\ foldM (fun childrenNode '(servicePath, service) =>
                  run name <~ slice_from1 servicePath ;;
                  characteristicNodes (childrenNode ++ [mkNode name [] []]) service)
               acc l env w
         = (Ret (acc ++ (leaf_of <$> ps)), advance n w).
Proof.
  induction l as [| [p s] l IH]; intros acc w Hroot.
  - exists [], 0%nat. split; [reflexivity |].
    cbn. rewrite app_nil_r. unfold advance.
    rewrite Nat.add_0_r. destruct w; reflexivity.
  - rewrite bind_cons in Hroot. apply Forall_app in Hroot as [Hhd Hl].
    apply Forall_cons in Hhd as [Hp Hcs].
    destruct (from1_nonempty p Hp) as (name & Hname & Hleaf).
    destruct (characteristicNodes_run env (acc ++ [mkNode name [] []]) s w Hcs)
      as (ps1 & n1 & Hps1 & Hrun1).
    destruct (IH ((acc ++ [mkNode name [] []]) ++ (leaf_of <$> ps1)) (advance n1 w) Hl)
      as (ps2 & n & Hps2 & Hrun2).
    exists (p :: ps1 ++ ps2), (n1 + n)%nat. split.
    + rewrite bind_cons. cbn. rewrite Hps1, Hps2. reflexivity.
    + cbn [foldM]. unfold bind at 1. unfold slice_from1 at 1, bind at 1.
      rewrite Hname. cbn [ret]. rewrite Hrun1, Hrun2.
      rewrite advance_advance. f_equal. f_equal.
      rewrite fmap_cons, fmap_app, Hleaf, <- !app_assoc. reflexivity.
Qed.

Lemma serviceNodes_run (env : Env) (app : Application) (w : World) :
  Forall nonempty (registered_paths app) ->
  exists ps n, ps ≡ₚ registered_paths app
    /\ serviceNodes app env w = (Ret (leaf_of <$> ps), advance n w).
Proof.
  intros Hroot. unfold serviceNodes, bind.
  destruct (go_range_run (GetServices app) env w) as (l & Hperm & ->).
  unfold registered_paths in *. rewrite <- Hperm in Hroot.
  destruct (service_loop env l [] (advance 1 w) Hroot) as (ps & n & Hps & Hrun).
  exists ps, (1 + n)%nat. split.
  - rewrite Hps, Hperm. reflexivity.
  - cbv beta iota. rewrite <- advance_advance. exact Hrun.
Qed.

(** One run of [exportTree] on a tree without an empty path: the children
    are the leaves of some arrangement of the registered paths, and only the
    connection changes. *)
Lemma exportTree_run (env : Env) (w : World) :
  Forall nonempty (registered_paths (w_app w)) ->
  exists ps node w',
    ps ≡ₚ registered_paths (w_app w)
    /\ node = mkNode "" [IntrospectData; ObjectManagerIntrospectData] (leaf_of <$> ps)
    /\ exportTree env w = (Ret (reply env (w_log w) (tree_export w node)), w')
    /\ w_app w' = w_app w
    /\ w_log w' = w_log w ++ [tree_export w node]
    /\ (reply env (w_log w) (tree_export w node) = None ->
        published_tree w' = Some (ExIntrospectable node))
    /\ (reply env (w_log w) (tree_export w node) <> None ->
        w_exports w' = w_exports w).
Proof.
  intros Hroot.
  destruct (serviceNodes_run env (w_app w) w Hroot) as (ps & n & Hps & Hrun).
  exists ps, (mkNode "" [IntrospectData; ObjectManagerIntrospectData] (leaf_of <$> ps)).
  unfold exportTree, bind, get_app. rewrite Hrun.
  unfold conn_Export, tree_export, published_tree. cbn [w_log w_app advance].
  destruct (reply env (w_log w) _) as [e |] eqn:Hreply.
  - eexists. split; [exact Hps |]. split; [reflexivity |].
    split; [reflexivity |]. cbn.
    split; [reflexivity |]. split; [reflexivity |].
    split; [discriminate | reflexivity].
  - eexists. split; [exact Hps |]. split; [reflexivity |].
    split; [reflexivity |]. cbn.
    split; [reflexivity |]. split; [reflexivity |].
    split; [| congruence].
    intros _. apply lookup_insert_eq.
Qed.



(** ** UUID construction *)

(** The run of [GenerateUUID] on an application configured with the package
    constant as its suffix. *)
Lemma GenerateUUID_fixed_suffix (app : Application) (value : string) :
  cfg_UUIDSuffix (config app) = UUIDSuffix ->
  GenerateUUID app value =
    if decide (String.length value = 8%nat)
    then value +:+ UUIDSuffix
    else cfg_UUID (config app) +:+ value +:+ UUIDSuffix.
Proof.
  intros Hsuffix. unfold GenerateUUID. rewrite Hsuffix.
  destruct (decide (String.length value = 8%nat)); reflexivity.
Qed.

(** C2, as stated, fails: the suffix is not fixed but read from the
    configuration; with the suffix left unset an 8-character value comes
    back bare. *)
Lemma GenerateUUID_suffix_not_fixed :
  GenerateUUID unset_suffix_app "feed1234" = "feed1234"
  /\ GenerateUUID unset_suffix_app "feed1234" <> "feed1234" +:+ UUIDSuffix.
Proof. split; [reflexivity | discriminate]. Qed.

(** C2, amended: [GenerateUUID] is a function of the application's
    configuration and of the value alone (it has no access to any state and
    returns nothing else); a value of length 8 is followed by the configured
    suffix, the base being dropped, and any other value is put between the
    configured base and the configured suffix. *)
Theorem GenerateUUID_by_length (app : Application) (value : string) :
  GenerateUUID app value =
    if decide (String.length value = 8%nat)
    then value +:+ cfg_UUIDSuffix (config app)
    else cfg_UUID (config app) +:+ value +:+ cfg_UUIDSuffix (config app).
Proof.
  unfold GenerateUUID.
  destruct (decide (String.length value = 8%nat)); reflexivity.
Qed.

(** C3, as stated, fails: ["180D"] has four characters, not eight, so the
    base is kept; and the suffix is the configured one. *)
Lemma GenerateUUID_180D_keeps_base :
  GenerateUUID sample_app "180D" = "0000180D-0000-1000-8000-00805F9B34FB"
  /\ GenerateUUID sample_app "180D" <> "180D" +:+ UUIDSuffix
  /\ GenerateUUID unset_suffix_app "feed1234" <> "feed1234" +:+ UUIDSuffix.
Proof. repeat split; try reflexivity; discriminate. Qed.

(** C3, amended: for every configuration, ["180D"] (length 4) yields base,
    ["180D"], configured suffix; ["feed1234"] (length 8) yields ["feed1234"]
    and the configured suffix whatever the base; ["someBase0001"] yields
    base, ["someBase0001"], configured suffix. *)
Theorem GenerateUUID_examples (app : Application) :
  GenerateUUID app "180D"
    = cfg_UUID (config app) +:+ "180D" +:+ cfg_UUIDSuffix (config app)
  /\ GenerateUUID app "feed1234" = "feed1234" +:+ cfg_UUIDSuffix (config app)
  /\ GenerateUUID app "someBase0001"
    = cfg_UUID (config app) +:+ "someBase0001" +:+ cfg_UUIDSuffix (config app).
Proof. repeat split. Qed.

(** ** Callback dispatch *)

(** C4: each of the four handlers answers CALLBACK_NOT_REGISTERED with the
    fixed message when its slot is nil, CALLBACK_FUNCTION_ERROR carrying the
    callback's message when the callback fails, and otherwise hands back the
    callback's bytes (reads) or a nil error (writes). *)
Theorem dispatch_taxonomy (app : Application) (srv chr dsc : string)
    (value : slice Byte.byte) :
  (ReadFunc (config app) = None ->
     (HandleRead app srv chr).2
       = Some (NewCallbackError CALLBACK_NOT_REGISTERED "No callback registered."))
  /\ (forall f b e, ReadFunc (config app) = Some f ->
        f (snapshot app) srv chr = (b, Some e) ->
        HandleRead app srv chr = (b, Some (NewCallbackError CALLBACK_FUNCTION_ERROR e)))
  /\ (forall f b, ReadFunc (config app) = Some f ->
        f (snapshot app) srv chr = (b, None) ->
        HandleRead app srv chr = (b, None))
  /\ (WriteFunc (config app) = None ->
        HandleWrite app srv chr value
          = Some (NewCallbackError CALLBACK_NOT_REGISTERED "No callback registered."))
  /\ (forall f e, WriteFunc (config app) = Some f ->
        f (snapshot app) srv chr value = Some e ->
        HandleWrite app srv chr value = Some (NewCallbackError CALLBACK_FUNCTION_ERROR e))
  /\ (forall f, WriteFunc (config app) = Some f ->
        f (snapshot app) srv chr value = None ->
        HandleWrite app srv chr value = None)
  /\ (DescReadFunc (config app) = None ->
        (HandleDescriptorRead app srv chr dsc).2
          = Some (NewCallbackError CALLBACK_NOT_REGISTERED "No callback registered."))
  /\ (forall f b e, DescReadFunc (config app) = Some f ->
        f (snapshot app) srv chr dsc = (b, Some e) ->
        HandleDescriptorRead app srv chr dsc
          = (b, Some (NewCallbackError CALLBACK_FUNCTION_ERROR e)))
  /\ (forall f b, DescReadFunc (config app) = Some f ->
        f (snapshot app) srv chr dsc = (b, None) ->
        HandleDescriptorRead app srv chr dsc = (b, None))
  /\ (DescWriteFunc (config app) = None ->
        HandleDescriptorWrite app srv chr dsc value
          = Some (NewCallbackError CALLBACK_NOT_REGISTERED "No callback registered."))
  /\ (forall f e, DescWriteFunc (config app) = Some f ->
        f (snapshot app) srv chr dsc value = Some e ->
        HandleDescriptorWrite app srv chr dsc value
          = Some (NewCallbackError CALLBACK_FUNCTION_ERROR e))
  /\ (forall f, DescWriteFunc (config app) = Some f ->
        f (snapshot app) srv chr dsc value = None ->
        HandleDescriptorWrite app srv chr dsc value = None).
Proof.
  unfold HandleRead, HandleWrite, HandleDescriptorRead, HandleDescriptorWrite.
  repeat split.
  all: try (intros Hslot; rewrite Hslot; reflexivity).
  all: try (intros f b e Hslot Hcall; rewrite Hslot, Hcall; reflexivity).
  all: try (intros f x Hslot Hcall; rewrite Hslot, Hcall; reflexivity).
  all: intros f Hslot Hcall; rewrite Hslot, Hcall; reflexivity.
Qed.

Lemma dispatch_taxonomy_witness :
  (HandleRead sample_app "180D" "2A37").2
     = Some {| msg := "No callback registered."; code := -1 |}
  /\ HandleRead failing_app "180D" "2A37"
     = (make_slice [Byte.x01], Some {| msg := "read refused"; code := -2 |})
  /\ HandleRead serving_app "180D" "2A37" = (make_slice [Byte.x2a; Byte.x2b], None)
  /\ HandleWrite sample_app "180D" "2A37" nil_slice
     = Some {| msg := "No callback registered."; code := -1 |}
  /\ HandleWrite failing_app "180D" "2A37" nil_slice
     = Some {| msg := "write refused"; code := -2 |}
  /\ HandleWrite serving_app "180D" "2A37" nil_slice = None
  /\ (HandleDescriptorRead sample_app "180D" "2A37" "2902").2
     = Some {| msg := "No callback registered."; code := -1 |}
  /\ HandleDescriptorRead failing_app "180D" "2A37" "2902"
     = (nil_slice, Some {| msg := "descriptor read refused"; code := -2 |})
  /\ HandleDescriptorRead serving_app "180D" "2A37" "2902" = (make_slice [Byte.x07], None)
  /\ HandleDescriptorWrite sample_app "180D" "2A37" "2902" nil_slice
     = Some {| msg := "No callback registered."; code := -1 |}
  /\ HandleDescriptorWrite failing_app "180D" "2A37" "2902" nil_slice
     = Some {| msg := "descriptor write refused"; code := -2 |}
  /\ HandleDescriptorWrite serving_app "180D" "2A37" "2902" nil_slice = None.
Proof.
  pose proof (dispatch_taxonomy sample_app "180D" "2A37" "2902" nil_slice)
    as (N1 & _ & _ & N2 & _ & _ & N3 & _ & _ & N4 & _ & _).
  pose proof (dispatch_taxonomy failing_app "180D" "2A37" "2902" nil_slice)
    as (_ & F1 & _ & _ & F2 & _ & _ & F3 & _ & _ & F4 & _).
  pose proof (dispatch_taxonomy serving_app "180D" "2A37" "2902" nil_slice)
    as (_ & _ & S1 & _ & _ & S2 & _ & _ & S3 & _ & _ & S4).
  split; [apply N1; reflexivity |].
  split; [eapply F1; reflexivity |].
  split; [eapply S1; reflexivity |].
  split; [apply N2; reflexivity |].
  split; [eapply F2; reflexivity |].
  split; [eapply S2; reflexivity |].
  split; [apply N3; reflexivity |].
  split; [eapply F3; reflexivity |].
  split; [eapply S3; reflexivity |].
  split; [apply N4; reflexivity |].
  split; [eapply F4; reflexivity |].
  eapply S4; reflexivity.
Defined.

(** C10: with its read slot unset, [HandleRead] (and likewise
    [HandleDescriptorRead]) returns an allocated slice of length zero next to
    the CALLBACK_NOT_REGISTERED error, and the message of that error is
    ["No callback registered."] in all four handlers. *)
Theorem unregistered_read_is_empty (app : Application) (srv chr dsc : string)
    (value : slice Byte.byte) :
  (ReadFunc (config app) = None ->
     exists b e, HandleRead app srv chr = (b, Some e)
       /\ is_nil b = false /\ len b = 0%nat
       /\ code e = CALLBACK_NOT_REGISTERED /\ msg e = "No callback registered.")
  /\ (DescReadFunc (config app) = None ->
     exists b e, HandleDescriptorRead app srv chr dsc = (b, Some e)
       /\ is_nil b = false /\ len b = 0%nat
       /\ code e = CALLBACK_NOT_REGISTERED /\ msg e = "No callback registered.")
  /\ (WriteFunc (config app) = None ->
     exists e, HandleWrite app srv chr value = Some e
       /\ code e = CALLBACK_NOT_REGISTERED /\ Error e = "No callback registered.")
  /\ (DescWriteFunc (config app) = None ->
     exists e, HandleDescriptorWrite app srv chr dsc value = Some e
       /\ code e = CALLBACK_NOT_REGISTERED /\ Error e = "No callback registered.").
Proof.
  unfold HandleRead, HandleWrite, HandleDescriptorRead, HandleDescriptorWrite.
  repeat split; intros Hslot; rewrite Hslot; eauto 10.
Qed.

Lemma unregistered_read_is_empty_witness :
  (exists b e, HandleRead sample_app "180D" "2A37" = (b, Some e)
     /\ is_nil b = false /\ len b = 0%nat
     /\ code e = -1 /\ msg e = "No callback registered.")
  /\ (exists b e, HandleDescriptorRead sample_app "180D" "2A37" "2902" = (b, Some e)
     /\ is_nil b = false /\ len b = 0%nat
     /\ code e = -1 /\ msg e = "No callback registered.")
  /\ (exists e, HandleWrite sample_app "180D" "2A37" (make_slice [Byte.x00]) = Some e
     /\ code e = -1 /\ Error e = "No callback registered.")
  /\ (exists e, HandleDescriptorWrite sample_app "180D" "2A37" "2902"
                  (make_slice [Byte.x00]) = Some e
     /\ code e = -1 /\ Error e = "No callback registered.").
Proof.
  pose proof (unregistered_read_is_empty sample_app "180D" "2A37" "2902"
                (make_slice [Byte.x00])) as (R & DR & W & DW).
  split; [apply R; reflexivity |].
  split; [apply DR; reflexivity |].
  split; [apply W; reflexivity |].
  apply DW; reflexivity.
Defined.

(** ** Adding a service whose export fails *)

(** C1, as stated, fails: the service is written into the service map
    before it is exported, and stays there when the export fails. *)
Lemma AddService_export_failure_keeps_service :
  let '(r, w') := AddService heart_rate_service expose_failing_env sample_world in
  r = Ret (Some "export failed")
  /\ services (w_app sample_world) !! Path heart_rate_service = None
  /\ services (w_app w') !! Path heart_rate_service = Some heart_rate_service
  /\ services (w_app w') <> services (w_app sample_world).
Proof.
  cbn. split; [reflexivity |]. split; [reflexivity |].
  split; [reflexivity |].
  intros Heq.
  apply (f_equal (fun m => m !! Path heart_rate_service)) in Heq.
  vm_compute in Heq. discriminate.
Qed.

(** C1, amended: when the export of the service object fails, [AddService]
    returns that export error; the ObjectDirectory snapshot and the published
    introspection tree are as before the call, and the service map holds the
    service under its path, all other entries being as before. *)
Theorem AddService_export_failure (env : Env) (w : World) (service : GattService1)
    (e : error) :
  reply env (w_log w) (EvServiceExpose service) = Some e ->
  exists w',
    AddService service env w = (Ret (Some e), w')
    /\ directory w' = directory w
    /\ published_tree w' = published_tree w
    /\ services (w_app w') = <[Path service := service]> (services (w_app w))
    /\ advertisement (w_app w') = advertisement (w_app w)
    /\ config (w_app w') = config (w_app w).
Proof.
  intros Hfail. eexists.
  unfold AddService, bind, modify_app, svc_Expose, interact; cbn.
  rewrite Hfail. cbn.
  split; [reflexivity |].
  repeat split.
Qed.

Lemma AddService_export_failure_witness :
  exists w',
    AddService heart_rate_service expose_failing_env sample_world
      = (Ret (Some "export failed"), w')
    /\ directory w' = directory sample_world
    /\ published_tree w' = published_tree sample_world
    /\ services (w_app w')
       = <[Path heart_rate_service := heart_rate_service]> (services (w_app sample_world))
    /\ advertisement (w_app w') = advertisement (w_app sample_world)
    /\ config (w_app w') = config (w_app sample_world).
Proof.
  apply (AddService_export_failure expose_failing_env sample_world
           heart_rate_service "export failed").
  reflexivity.
Defined.

(** ** Advertising: the no-op cases and the teardown *)

(** C5: with an advertisement already referenced, [StartAdvertising] returns
    nil and leaves the whole world as it was: the application state, the
    exported handlers and the log of interactions, so that nothing was
    created, exported or sent to the daemon. *)
Theorem StartAdvertising_idempotent (env : Env) (w : World) (device_name : string) :
  advertisement (w_app w) <> None ->
  StartAdvertising device_name env w = (Ret None, w).
Proof.
  intros Hactive. unfold StartAdvertising, bind, get_app; cbn.
  destruct (advertisement (w_app w)) as [ad |]; [reflexivity | congruence].
Qed.

Lemma StartAdvertising_idempotent_witness :
  StartAdvertising "hci0" calm_env advertising_world = (Ret None, advertising_world).
Proof.
  apply (StartAdvertising_idempotent calm_env advertising_world "hci0").
  discriminate.
Defined.

(** Twice in a row on the sample world: the second call adds no interaction
    and returns nil; one registration call in all. *)
Lemma StartAdvertising_twice :
  let '(r1, w1) := StartAdvertising "hci0" calm_env populated_world in
  let '(r2, w2) := StartAdvertising "hci0" calm_env w1 in
  r1 = Ret None /\ r2 = Ret None /\ w2 = w1
  /\ length (daemon_calls (w_log w2)) = 1%nat.
Proof. vm_compute. repeat split. Qed.

(** C6: with an advertisement referenced, [StopAdvertising] sends exactly one
    UnregisterAdvertisement call (to the advertisement's device path, with
    the advertisement's path), clears the reference whatever the daemon
    answers, and returns the daemon's answer; with none referenced it sends
    nothing, changes nothing and returns nil. *)
Theorem StopAdvertising_clears (env : Env) (w : World) :
  (forall ad, advertisement (w_app w) = Some ad ->
     let call := EvCall "org.bluez" (ad_device_path (ad_config ad))
                   "org.bluez.LEAdvertisingManager1.UnregisterAdvertisement"
                   [ArgObjectPath (ad_objectPath (ad_config ad))] in
     exists w',
       StopAdvertising env w = (Ret (reply env (w_log w) call), w')
       /\ advertisement (w_app w') = None
       /\ w_log w' = w_log w ++ [call]
       /\ daemon_calls (w_log w') = daemon_calls (w_log w) ++ [call]
       /\ w_app w' = set_advertisement None (w_app w)
       /\ w_exports w' = w_exports w)
  /\ (advertisement (w_app w) = None -> StopAdvertising env w = (Ret None, w)).
Proof.
  split.
  - intros ad Had call.
    unfold StopAdvertising, bind, get_app, interact, modify_app, ret; cbn.
    rewrite Had. cbn. unfold UnregisterAdvertisement. fold call.
    destruct (reply env (w_log w) call) as [e |]; cbn.
    all: eexists; split; [reflexivity |]; cbn.
    all: split; [reflexivity |].
    all: split; [reflexivity |].
    all: split; [| split; reflexivity].
    all: unfold daemon_calls; rewrite List.filter_app; reflexivity.
  - intros Hnone. unfold StopAdvertising, bind, get_app; cbn.
    rewrite Hnone. reflexivity.
Qed.

Lemma StopAdvertising_clears_witness :
  (exists w',
     StopAdvertising refusing_env advertising_world
       = (Ret (Some "org.bluez.Error.Failed"), w')
     /\ advertisement (w_app w') = None
     /\ daemon_calls (w_log w')
        = [EvCall "org.bluez" "/org/bluez/hci0"
             "org.bluez.LEAdvertisingManager1.UnregisterAdvertisement"
             [ArgObjectPath "/org/bluez/advertisement/0"]])
  /\ StopAdvertising refusing_env sample_world = (Ret None, sample_world).
Proof.
  pose proof (StopAdvertising_clears refusing_env advertising_world) as [Hactive _].
  pose proof (StopAdvertising_clears refusing_env sample_world) as [_ Hidle].
  split.
  - destruct (Hactive _ eq_refl) as (w' & Hrun & Hnil & _ & Hcalls & _).
    exists w'. split; [exact Hrun |]. split; [exact Hnil | exact Hcalls].
  - apply Hidle. reflexivity.
Defined.

(** ** The published tree *)

(** C8, as stated, fails: on a tree that holds an empty path no node is
    built at all; [exportTree] (and with it [AddService]) panics on the
    slice expression. *)
Lemma exportTree_panics_on_empty_path :
  let '(r, w') := exportTree calm_env pathless_world in
  r = Panic "slice bounds out of range"
  /\ w_log w' = []
  /\ published_tree w' = None
  /\ (AddService pathless_service calm_env sample_world).1
     = Panic "slice bounds out of range".
Proof. vm_compute. repeat split. Qed.

(** C8, amended: on a tree whose registered paths are all non-empty,
    [exportTree] builds a node whose interfaces are exactly the generic
    introspection interface and the object-manager interface and whose
    children are named exactly by the registered service, characteristic and
    descriptor paths, each without its first byte (for a path with a leading
    separator: the path without that separator); the application is left as
    it was, and a second call publishes a node with the same interfaces and
    the same children, up to the order in which the maps are walked. *)
Theorem exportTree_children (env : Env) (w : World) :
  Forall nonempty (registered_paths (w_app w)) ->
  exists node1 node2 w1 w2,
    exportTree env w = (Ret (reply env (w_log w) (tree_export w node1)), w1)
    /\ w_log w1 = w_log w ++ [tree_export w node1]
    /\ w_app w1 = w_app w
    /\ (reply env (w_log w) (tree_export w node1) = None ->
        published_tree w1 = Some (ExIntrospectable node1))
    /\ node_Interfaces node1 = [IntrospectData; ObjectManagerIntrospectData]
    /\ Some <$> (node_Name <$> node_Children node1)
         ≡ₚ from1 <$> registered_paths (w_app w)
    /\ (forall c, c ∈ node_Children node1 -> c = mkNode (node_Name c) [] [])
    /\ (Forall rooted (registered_paths (w_app w)) ->
        child_path <$> node_Children node1 ≡ₚ registered_paths (w_app w)
        /\ forall p, p ∈ registered_paths (w_app w)
                     <-> exists c, c ∈ node_Children node1 /\ p = child_path c)
    /\ exportTree env w1 = (Ret (reply env (w_log w1) (tree_export w node2)), w2)
    /\ w_log w2 = w_log w1 ++ [tree_export w node2]
    /\ w_app w2 = w_app w
    /\ node_Name node2 = node_Name node1
    /\ node_Interfaces node2 = node_Interfaces node1
    /\ node_Children node2 ≡ₚ node_Children node1.
Proof.
  intros Hfull.
  destruct (exportTree_run env w Hfull)
    as (ps1 & node1 & w1 & Hps1 & -> & Hrun1 & Happ1 & Hlog1 & Hpub1 & _).
  assert (Hfull1 : Forall nonempty (registered_paths (w_app w1)))
    by (rewrite Happ1; exact Hfull).
  destruct (exportTree_run env w1 Hfull1)
    as (ps2 & node2 & w2 & Hps2 & -> & Hrun2 & Happ2 & Hlog2 & _).
  assert (Hn1 : Forall nonempty ps1) by (rewrite Hps1; exact Hfull).
  assert (Hev : forall node, tree_export w1 node = tree_export w node)
    by (intros node; unfold tree_export; rewrite Happ1; reflexivity).
  rewrite Hev in Hrun2, Hlog2. rewrite Happ1 in Hps2, Happ2.
  exists (mkNode "" [IntrospectData; ObjectManagerIntrospectData] (leaf_of <$> ps1)),
         (mkNode "" [IntrospectData; ObjectManagerIntrospectData] (leaf_of <$> ps2)),
         w1, w2.
  split; [exact Hrun1 |]. split; [exact Hlog1 |]. split; [exact Happ1 |].
  split; [exact Hpub1 |]. split; [reflexivity |].
  cbn [node_Children node_Interfaces node_Name].
  split; [rewrite leaf_names by exact Hn1; rewrite Hps1; reflexivity |].
  split.
  { intros c Hc. apply list_elem_of_fmap in Hc as (q & -> & Hq).
    rewrite Forall_forall in Hn1.
    destruct (from1_nonempty q (Hn1 q Hq)) as (name & _ & ->). reflexivity. }
  split.
  { intros Hroot.
    assert (Hr1 : Forall rooted ps1) by (rewrite Hps1; exact Hroot).
    split; [rewrite child_paths_leaves by exact Hr1; exact Hps1 |].
    intros p. rewrite <- Hps1. rewrite Forall_forall in Hr1. split.
    - intros Hp. exists (leaf_of p). split.
      + apply list_elem_of_fmap. eauto.
      + symmetry. apply child_path_leaf_of. auto.
    - intros (c & Hc & ->). apply list_elem_of_fmap in Hc as (q & -> & Hq).
      rewrite child_path_leaf_of; [exact Hq | auto]. }
  split; [exact Hrun2 |]. split; [exact Hlog2 |]. split; [exact Happ2 |].
  split; [reflexivity |]. split; [reflexivity |].
  rewrite Hps2, Hps1. reflexivity.
Qed.

(** The order of the children is not fixed: two calls in a row may list the
    same children in different orders. *)
Lemma exportTree_order_may_differ :
  let '(_, w2) := (exec exportTree ;; exportTree) drifting_env populated_world in
  exists node1 node2,
    w_log w2 = [tree_export populated_world node1; tree_export populated_world node2]
    /\ node_Children node1 <> node_Children node2
    /\ node_Children node1 ≡ₚ node_Children node2.
Proof.
  vm_compute.
  eexists _, _. split; [reflexivity |]. split; [discriminate |].
  cbn. apply (Permutation_app_comm [_; _; _] [_]).
Qed.

Lemma exportTree_children_witness :
  exists node1 node2 w1 w2,
    exportTree drifting_env populated_world
      = (Ret (reply drifting_env (w_log populated_world)
                (tree_export populated_world node1)), w1)
    /\ w_log w1 = w_log populated_world ++ [tree_export populated_world node1]
    /\ w_app w1 = w_app populated_world
    /\ (reply drifting_env (w_log populated_world)
          (tree_export populated_world node1) = None ->
        published_tree w1 = Some (ExIntrospectable node1))
    /\ node_Interfaces node1 = [IntrospectData; ObjectManagerIntrospectData]
    /\ Some <$> (node_Name <$> node_Children node1)
         ≡ₚ from1 <$> registered_paths (w_app populated_world)
    /\ (forall c, c ∈ node_Children node1 -> c = mkNode (node_Name c) [] [])
    /\ (Forall rooted (registered_paths (w_app populated_world)) ->
        child_path <$> node_Children node1 ≡ₚ registered_paths (w_app populated_world)
        /\ forall p, p ∈ registered_paths (w_app populated_world)
                     <-> exists c, c ∈ node_Children node1 /\ p = child_path c)
    /\ exportTree drifting_env w1
       = (Ret (reply drifting_env (w_log w1) (tree_export populated_world node2)), w2)
    /\ w_log w2 = w_log w1 ++ [tree_export populated_world node2]
    /\ w_app w2 = w_app populated_world
    /\ node_Name node2 = node_Name node1
    /\ node_Interfaces node2 = node_Interfaces node1
    /\ node_Children node2 ≡ₚ node_Children node1.
Proof.
  apply (exportTree_children drifting_env populated_world).
  vm_compute registered_paths.
  repeat constructor; discriminate.
Defined.

(** ** Starting to advertise *)

Lemma advertised_loop (env : Env) (l : list (ObjectPath * GattService1)) :
  forall (acc : list string) (w : World),
    foldM (fun serv_uuids '(_, serv) =>
             if Advertised serv
             then ret (serv_uuids ++ [UUID (svc_properties serv)])
             else ret serv_uuids)
          acc l env w
    = (Ret (acc ++ (l ≫= λ '(_, s),
                      if Advertised s then [UUID (svc_properties s)] else [])), w).
Proof.
  induction l as [| [p s] l IH]; intros acc w.
  - cbn. rewrite app_nil_r. reflexivity.
  - cbn [foldM]. unfold bind at 1. rewrite bind_cons.
    destruct (Advertised s); cbn [ret]; rewrite IH.
    + rewrite <- app_assoc. reflexivity.
    + reflexivity.
Qed.

Lemma advertisedUUIDs_run (env : Env) (app : Application) (w : World) :
  exists uuids, uuids ≡ₚ advertised_uuids app
    /\ advertisedUUIDs app env w = (Ret uuids, advance 1 w).
Proof.
  unfold advertisedUUIDs, bind.
  destruct (go_range_run (services app) env w) as (l & Hperm & ->).
  cbv beta iota. rewrite advertised_loop. eexists. split; [| reflexivity].
  unfold advertised_uuids. rewrite Hperm. reflexivity.
Qed.

Lemma ad_Properties_entries (ad : LEAdvertisement1) (seed : nat) :
  permute seed (map_to_list (ad_Properties ad))
  = [(Interface ad, AdvertisementProps (ad_properties ad))].
Proof.
  unfold ad_Properties.
  rewrite insert_empty, map_to_list_singleton. apply permute_singleton.
Qed.

Lemma daemon_calls_app (l1 l2 : list Event) :
  daemon_calls (l1 ++ l2) = daemon_calls l1 ++ daemon_calls l2.
Proof. apply List.filter_app. Qed.

Lemma elem_of_advertised_uuids (app : Application) (u : string) :
  u ∈ advertised_uuids app
  <-> exists p s, services app !! p = Some s
        /\ Advertised s = true /\ UUID (svc_properties s) = u.
Proof.
  unfold advertised_uuids. rewrite list_elem_of_bind. split.
  - intros ([p s] & Hu & Hin). apply elem_of_map_to_list in Hin.
    exists p, s. destruct (Advertised s).
    + apply list_elem_of_singleton in Hu. auto.
    + apply elem_of_nil in Hu. contradiction.
  - intros (p & s & Hin & Hadv & <-). exists (p, s). split.
    + rewrite Hadv. apply list_elem_of_singleton. reflexivity.
    + apply elem_of_map_to_list. exact Hin.
Qed.

(** C9, as stated, fails: when the advertisement object cannot be exported,
    [StartAdvertising] returns the export error and sends nothing to the
    daemon. *)
Lemma StartAdvertising_export_failure_sends_nothing :
  let '(r, w') := StartAdvertising "hci0" export_failing_env populated_world in
  advertisement (w_app populated_world) = None
  /\ r = Ret (Some "dbus: invalid path name")
  /\ daemon_calls (w_log w') = [].
Proof. vm_compute. repeat split. Qed.

(** The next checked step of a run answers nil, by [H]. *)
Ltac answered H :=
  rewrite <- ?app_assoc;
  match goal with
  | |- context [reply ?env ?l ?e] =>
      let Heq := fresh "Heq" in
      assert (Heq : reply env l e = None) by exact H;
      rewrite Heq; clear Heq
  end.

(** C9, amended: with no advertisement referenced, and provided the
    construction and the export of the advertisement object succeed in this
    run, [StartAdvertising] builds the advertisement at
    ["/org/bluez/advertisement/0"] with type ["peripheral"] and, as its
    ServiceUUIDs, exactly the UUIDs of the services whose advertised flag is
    set; it then sends exactly one RegisterAdvertisement call, to the device
    path ["/org/bluez/<deviceName>"] of ["org.bluez"], with the advertisement
    path and an empty options map, and returns the daemon's answer. *)
Theorem StartAdvertising_registers (env : Env) (w : World) (device_name : string) :
  advertisement (w_app w) = None ->
  advertisement_steps_succeed env w device_name ->
  let call := EvCall "org.bluez" ("/org/bluez/" +:+ device_name)
                "org.bluez.LEAdvertisingManager1.RegisterAdvertisement"
                [ArgObjectPath "/org/bluez/advertisement/0"; ArgOptions ∅] in
  exists ad w' setup,
    StartAdvertising device_name env w = (Ret (reply env (w_log w ++ setup) call), w')
    /\ advertisement (w_app w') = Some ad
    /\ Path ad = "/org/bluez/advertisement/0"
    /\ ad_device_path (ad_config ad) = "/org/bluez/" +:+ device_name
    /\ Type_ (ad_properties ad) = "peripheral"
    /\ ServiceUUIDs (ad_properties ad) ≡ₚ advertised_uuids (w_app w)
    /\ (forall u, u ∈ ServiceUUIDs (ad_properties ad)
                  <-> exists p s, services (w_app w) !! p = Some s
                        /\ Advertised s = true /\ UUID (svc_properties s) = u)
    /\ w_exports w' !! ("/org/bluez/advertisement/0", LEAdvertisement1Interface)
       = Some (ExAdvertisement ad)
    /\ w_log w' = w_log w ++ setup ++ [call]
    /\ daemon_calls setup = []
    /\ daemon_calls (w_log w') = daemon_calls (w_log w) ++ [call].
Proof.
  intros Hnone Hsteps call.
  destruct (advertisedUUIDs_run env (w_app w) w) as (uuids & Hperm & Hrun).
  destruct (Hsteps uuids _ Hrun) as (Hnew & Hfill & Hexport & Hintro).
  set (ad := advertisement_for device_name (cfg_LocalName (config (w_app w))) uuids)
    in *.
  unfold StartAdvertising, NewLEAdvertisement1, ad_Expose, bind, get_app, interact,
    modify_app, ret, conn_Export, go_range.
  rewrite Hnone, Hrun. cbn [w_app w_exports w_log w_tick advance].
  answered Hnew. cbn [w_app w_exports w_log w_tick].
  answered Hfill. cbn [w_app w_exports w_log w_tick].
  answered Hexport. cbn [w_app w_exports w_log w_tick].
  rewrite ad_Properties_entries.
  cbn [foldM]. unfold bind, interact, ret. cbn [w_app w_exports w_log w_tick].
  answered Hintro. cbn [w_app w_exports w_log w_tick].
  rewrite <- ?app_assoc. unfold RegisterAdvertisement. cbn [ad_objectPath].
  fold call.
  set (setup := [EvNewProperties;
                 EvAddProperties LEAdvertisement1Interface
                   (AdvertisementProps (ad_properties ad));
                 EvExport (ExAdvertisement ad) (Path ad) LEAdvertisement1Interface;
                 EvAddProperties LEAdvertisement1Interface
                   (AdvertisementProps (ad_properties ad));
                 EvPropertiesExpose (Path ad);
                 EvExport (ExIntrospectable (advertisement_node ad)) (Path ad)
                   "org.freedesktop.DBus.Introspectable"]).
  exists ad. eexists. exists setup.
  split.
  { match goal with
    | |- context [reply env ?l call] => change l with (w_log w ++ setup)
    end.
    destruct (reply env (w_log w ++ setup) call); reflexivity. }
  cbn [w_app w_log w_exports].
  split; [reflexivity |]. split; [reflexivity |]. split; [reflexivity |].
  split; [reflexivity |]. split; [exact Hperm |].
  split; [intros u; cbn [ad advertisement_for ad_properties ServiceUUIDs];
          rewrite Hperm; apply elem_of_advertised_uuids |].
  split.
  { rewrite lookup_insert_ne by (intros [= Hiface]; discriminate Hiface).
    apply lookup_insert_eq. }
  split; [reflexivity |]. split; [reflexivity |].
  rewrite !daemon_calls_app. reflexivity.
Qed.

Lemma StartAdvertising_registers_witness :
  exists ad w' setup,
    StartAdvertising "hci0" expose_failing_env populated_world
      = (Ret (reply expose_failing_env (w_log populated_world ++ setup)
                (EvCall "org.bluez" "/org/bluez/hci0"
                   "org.bluez.LEAdvertisingManager1.RegisterAdvertisement"
                   [ArgObjectPath "/org/bluez/advertisement/0"; ArgOptions ∅])), w')
    /\ advertisement (w_app w') = Some ad
    /\ Path ad = "/org/bluez/advertisement/0"
    /\ ad_device_path (ad_config ad) = "/org/bluez/hci0"
    /\ Type_ (ad_properties ad) = "peripheral"
    /\ ServiceUUIDs (ad_properties ad) ≡ₚ advertised_uuids (w_app populated_world)
    /\ (forall u, u ∈ ServiceUUIDs (ad_properties ad)
                  <-> exists p s, services (w_app populated_world) !! p = Some s
                        /\ Advertised s = true /\ UUID (svc_properties s) = u)
    /\ w_exports w' !! ("/org/bluez/advertisement/0", LEAdvertisement1Interface)
       = Some (ExAdvertisement ad)
    /\ w_log w' = w_log populated_world ++ setup
         ++ [EvCall "org.bluez" "/org/bluez/hci0"
               "org.bluez.LEAdvertisingManager1.RegisterAdvertisement"
               [ArgObjectPath "/org/bluez/advertisement/0"; ArgOptions ∅]]
    /\ daemon_calls setup = []
    /\ daemon_calls (w_log w')
       = daemon_calls (w_log populated_world)
         ++ [EvCall "org.bluez" "/org/bluez/hci0"
               "org.bluez.LEAdvertisingManager1.RegisterAdvertisement"
               [ArgObjectPath "/org/bluez/advertisement/0"; ArgOptions ∅]].
Proof.
  apply (StartAdvertising_registers expose_failing_env populated_world "hci0").
  - reflexivity.
  - intros uuids w0 _.
    split; [reflexivity |]. split; [reflexivity |]. split; reflexivity.
Defined.

(** The scenario of the specification: one advertised service under
    ["/org/example/app"], then [StartAdvertising "hci0"]. *)
Lemma StartAdvertising_scenario :
  let program :=
    run created <~ CreateService heart_rate_props [true] ;;
    match created.1 with
    | Some s => exec AddService s ;; StartAdvertising "hci0"
    | None => ret (Some "no service")
    end in
  let '(r, w') := program calm_env sample_world in
  r = Ret None
  /\ daemon_calls (w_log w')
     = [EvCall "org.bluez" "/org/bluez/hci0"
          "org.bluez.LEAdvertisingManager1.RegisterAdvertisement"
          [ArgObjectPath "/org/bluez/advertisement/0"; ArgOptions ∅]]
  /\ (ServiceUUIDs ∘ ad_properties <$> advertisement (w_app w'))
     = Some ["0000180D-0000-1000-8000-00805F9B34FB"].
Proof. vm_compute. repeat split. Qed.

(** ** Path allocation *)

Lemma wrap_int_id (z : Z) : is_int z -> wrap_int z = z.
Proof.
  unfold is_int, wrap_int.
  change minInt with (-9223372036854775808).
  change maxInt with 9223372036854775807.
  change (2 ^ intSize) with 18446744073709551616.
  intros Hz. rewrite Z.mod_small by lia. lia.
Qed.

Lemma keeps_config_ret {A} (a : A) : keeps_config (ret a).
Proof. intros env w. reflexivity. Qed.

Lemma keeps_config_panic {A} (why : string) : keeps_config (@panic A why).
Proof. intros env w. reflexivity. Qed.

Lemma keeps_config_get_app : keeps_config get_app.
Proof. intros env w. reflexivity. Qed.

Lemma keeps_config_interact (e : Event) : keeps_config (interact e).
Proof. intros env w. reflexivity. Qed.

Lemma keeps_config_conn_Export (v : Exported) (path : ObjectPath) (iface : string) :
  keeps_config (conn_Export v path iface).
Proof.
  intros env w. unfold conn_Export.
  destruct (reply env (w_log w) _); reflexivity.
Qed.

Lemma keeps_config_go_range {V} (m : gmap ObjectPath V) : keeps_config (go_range m).
Proof. intros env w. reflexivity. Qed.

Lemma keeps_config_slice_from1 (s : string) : keeps_config (slice_from1 s).
Proof. intros env w. unfold slice_from1. destruct (from1 s); reflexivity. Qed.

Lemma keeps_config_modify_app (f : Application -> Application) :
  (forall app, config (f app) = config app) -> keeps_config (modify_app f).
Proof. intros Hf env w. apply Hf. Qed.

Lemma keeps_config_bind {A B} (m : M A) (k : A -> M B) :
  keeps_config m -> (forall a, keeps_config (k a)) -> keeps_config (bind m k).
Proof.
  intros Hm Hk env w. unfold bind.
  specialize (Hm env w). destruct (m env w) as [[a | why] w1]; cbn in *.
  - rewrite Hk. exact Hm.
  - exact Hm.
Qed.

Lemma keeps_config_foldM {A B} (f : B -> A -> M B) (l : list A) :
  (forall acc x, keeps_config (f acc x)) -> forall acc, keeps_config (foldM f acc l).
Proof.
  intros Hf. induction l as [| x l IH]; intros acc; cbn [foldM].
  - apply keeps_config_ret.
  - apply keeps_config_bind; [apply Hf | exact IH].
Qed.

Ltac keeps_step :=
  match goal with
  | |- keeps_config (bind _ _) => apply keeps_config_bind; [| intros ?]
  | |- keeps_config (foldM _ _ _) => apply keeps_config_foldM; intros ? ?
  | |- keeps_config (ret _) => apply keeps_config_ret
  | |- keeps_config (panic _) => apply keeps_config_panic
  | |- keeps_config get_app => apply keeps_config_get_app
  | |- keeps_config (interact _) => apply keeps_config_interact
  | |- keeps_config (conn_Export _ _ _) => apply keeps_config_conn_Export
  | |- keeps_config (go_range _) => apply keeps_config_go_range
  | |- keeps_config (slice_from1 _) => apply keeps_config_slice_from1
  | |- keeps_config (modify_app _) =>
      apply keeps_config_modify_app; intros ?; reflexivity
  | |- keeps_config (match ?x with _ => _ end) => destruct x
  end.

Lemma keeps_config_exportTree : keeps_config exportTree.
Proof.
  unfold exportTree, serviceNodes, characteristicNodes, descriptorNodes.
  repeat keeps_step.
Qed.

Lemma keeps_config_AddService (service : GattService1) :
  keeps_config (AddService service).
Proof.
  unfold AddService, svc_Expose, AddObject.
  repeat first [apply keeps_config_exportTree | keeps_step].
Qed.

Lemma keeps_config_RemoveService (service : GattService1) :
  keeps_config (RemoveService service).
Proof.
  unfold RemoveService, RemoveObject.
  repeat first [apply keeps_config_exportTree | keeps_step].
Qed.

Lemma keeps_config_NewGattService1 (c : GattService1Config)
    (props : GattService1Properties) :
  keeps_config (NewGattService1 c props).
Proof. unfold NewGattService1. repeat keeps_step. Qed.

(** [CreateService] always returns; it leaves the counter one step further
    (modulo the width of [int]) and a returned service carries the
    configuration built from that counter. *)
Lemma CreateService_run (env : Env) (w : World) (props : GattService1Properties)
    (adv : list bool) :
  exists r w1,
    CreateService props adv env w = (Ret r, w1)
    /\ config (w_app w1)
       = config (set_serviceIndex (wrap_int (serviceIndex w + 1)) (w_app w))
    /\ services (w_app w1) = services (w_app w)
    /\ (forall s, r.1 = Some s -> svc_config s = CreateService_config (w_app w1) adv).
Proof.
  unfold CreateService, NewGattService1, bind, modify_app, get_app, interact, ret.
  cbn [w_app w_log w_exports w_tick].
  destruct (reply env (w_log w) EvNewProperties) as [e1 |].
  - eexists _, _. split; [reflexivity |]. cbn.
    repeat split. discriminate.
  - destruct (reply env _ (EvAddProperties _ _)) as [e2 |].
    + eexists _, _. split; [reflexivity |]. cbn.
      repeat split. discriminate.
    + eexists _, _. split; [reflexivity |]. cbn.
      repeat split. intros s [= <-]. reflexivity.
Qed.

Lemma service_path_inj (prefix : string) (idx : Z) :
  Inj (=) (=) (fun k : nat => prefix +:+ "/service" +:+ Itoa (idx + Z.of_nat k)).
Proof.
  intros j k Heq.
  apply (inj (String.app prefix)) in Heq.
  apply (inj (String.app "/service")) in Heq.
  apply (inj pretty) in Heq. lia.
Qed.

Lemma run_calls_paths (env : Env) (cs : list Call) :
  forall w,
    minInt <= serviceIndex w ->
    serviceIndex w + Z.of_nat (creations cs) <= maxInt ->
    exists paths fin w',
      run_calls cs env w = (paths, fin, w')
      /\ paths = (fun k : nat => service_prefix (w_app w) +:+ "/service"
                                  +:+ Itoa (serviceIndex w + Z.of_nat k))
                 <$> seq 1 (length paths)
      /\ serviceIndex w' = serviceIndex w + Z.of_nat (length paths)
      /\ Path (w_app w') = Path (w_app w)
      /\ (length paths <= creations cs)%nat
      /\ (fin = true -> length paths = creations cs).
Proof.
  induction cs as [| c cs IH]; intros w Hmin Hmax.
  { exists [], true, w. cbn. repeat split; lia. }
  destruct c as [props adv | s | s]; cbn [run_calls].
  - unfold creations in Hmax |- *. cbn [List.filter is_create length] in Hmax |- *.
    fold (creations cs) in Hmax |- *.
    destruct (CreateService_run env w props adv) as (r & w1 & -> & Hcfg & _ & _).
    assert (Hidx : serviceIndex w1 = serviceIndex w + 1).
    { unfold serviceIndex at 1. rewrite Hcfg. cbn.
      apply wrap_int_id. unfold is_int. fold (serviceIndex w). lia. }
    assert (Hpath : Path (w_app w1) = Path (w_app w)).
    { unfold Path, Application_Path. rewrite Hcfg. reflexivity. }
    destruct (IH w1) as (paths & fin & w2 & -> & Hpaths & Hend & Hpath2 & Hle & Hfin);
      [lia | lia |].
    eexists _, fin, w2. split; [reflexivity |].
    cbn [length seq fmap list_fmap].
    split; [| split; [lia | split; [congruence | split; [lia | ]]]].
    + f_equal.
      * unfold CreateService_config, service_prefix. cbn [svc_objectPath].
        rewrite Hpath. fold (serviceIndex w1). rewrite Hidx. reflexivity.
      * rewrite Hpaths at 1. rewrite <- (fmap_S_seq 1), <- list_fmap_compose.
        apply list_fmap_ext. intros _ k _. cbn.
        unfold service_prefix. rewrite Hpath, Hidx. do 3 f_equal. lia.
    + intros Hf. rewrite (Hfin Hf). reflexivity.
  - unfold creations in Hmax |- *. cbn [List.filter is_create] in Hmax |- *.
    fold (creations cs) in Hmax |- *.
    pose proof (keeps_config_AddService s env w) as Hcfg.
    destruct (AddService s env w) as [[r | why] w1]; cbn [snd] in Hcfg.
    + destruct (IH w1) as (paths & fin & w2 & -> & Hpaths & Hend & Hpath2 & Hle & Hfin).
      { unfold serviceIndex. rewrite Hcfg. exact Hmin. }
      { unfold serviceIndex. rewrite Hcfg. exact Hmax. }
      exists paths, fin, w2. split; [reflexivity |].
      unfold serviceIndex, service_prefix, Path, Application_Path in *.
      rewrite Hcfg in *. auto.
    + exists [], false, w1. split; [reflexivity |].
      unfold serviceIndex, Path, Application_Path. rewrite Hcfg. cbn.
      split; [reflexivity |]. split; [lia |]. split; [reflexivity |].
      split; [lia | discriminate].
  - unfold creations in Hmax |- *. cbn [List.filter is_create] in Hmax |- *.
    fold (creations cs) in Hmax |- *.
    pose proof (keeps_config_RemoveService s env w) as Hcfg.
    destruct (RemoveService s env w) as [[r | why] w1]; cbn [snd] in Hcfg.
    + destruct (IH w1) as (paths & fin & w2 & -> & Hpaths & Hend & Hpath2 & Hle & Hfin).
      { unfold serviceIndex. rewrite Hcfg. exact Hmin. }
      { unfold serviceIndex. rewrite Hcfg. exact Hmax. }
      exists paths, fin, w2. split; [reflexivity |].
      unfold serviceIndex, service_prefix, Path, Application_Path in *.
      rewrite Hcfg in *. auto.
    + exists [], false, w1. split; [reflexivity |].
      unfold serviceIndex, Path, Application_Path. rewrite Hcfg. cbn.
      split; [reflexivity |]. split; [lia |]. split; [reflexivity |].
      split; [lia | discriminate].
Qed.

(** C7, as stated, fails: at the largest [int] the counter wraps around to
    the smallest one, so it decreases. *)
Lemma CreateService_counter_wraps :
  let '(r, w') := CreateService heart_rate_props [] calm_env (world_of saturated_app) in
  serviceIndex (world_of saturated_app) = 9223372036854775807
  /\ serviceIndex w' = -9223372036854775808
  /\ serviceIndex w' < serviceIndex (world_of saturated_app)
  /\ exists s, r = Ret (Some s, None)
       /\ Path s = "/org/example/app/service-9223372036854775808".
Proof.
  vm_compute.
  split; [reflexivity |]. split; [reflexivity |]. split; [reflexivity |].
  eexists. split; reflexivity.
Qed.

(** C7, amended: as long as the counter stays within the range of [int],
    every run of [CreateService], [AddService] and [RemoveService] calls
    numbers the paths it allocates consecutively from the counter's value,
    ["<prefix>/service<N>"] with the empty prefix for the root path; these
    paths are pairwise distinct whatever was removed in between, the counter
    ends that many steps higher and never goes down, and a single
    [CreateService] raises it by exactly one and returns a service with the
    next path. *)
Theorem CreateService_paths_fresh (env : Env) (cs : list Call) (w : World) :
  minInt <= serviceIndex w ->
  serviceIndex w + Z.of_nat (creations cs) <= maxInt ->
  exists paths fin w',
    run_calls cs env w = (paths, fin, w')
    /\ paths = (fun k : nat => service_prefix (w_app w) +:+ "/service"
                                +:+ Itoa (serviceIndex w + Z.of_nat k))
               <$> seq 1 (length paths)
    /\ NoDup paths
    /\ serviceIndex w' = serviceIndex w + Z.of_nat (length paths)
    /\ serviceIndex w <= serviceIndex w'
    /\ (length paths <= creations cs)%nat
    /\ (fin = true -> length paths = creations cs)
    /\ (forall props adv, serviceIndex w < maxInt ->
          exists r w1,
            CreateService props adv env w = (Ret r, w1)
            /\ serviceIndex w1 = serviceIndex w + 1
            /\ services (w_app w1) = services (w_app w)
            /\ forall s, r.1 = Some s ->
                 Path s = service_prefix (w_app w) +:+ "/service"
                            +:+ Itoa (serviceIndex w + 1)).
Proof.
  intros Hmin Hmax.
  destruct (run_calls_paths env cs w Hmin Hmax)
    as (paths & fin & w' & Hrun & Hpaths & Hend & _ & Hle & Hfin).
  exists paths, fin, w'.
  split; [exact Hrun |]. split; [exact Hpaths |].
  split.
  { rewrite Hpaths. apply NoDup_fmap_2; [apply service_path_inj | apply NoDup_seq]. }
  split; [exact Hend |]. split; [lia |]. split; [exact Hle |].
  split; [exact Hfin |].
  intros props adv Hlt.
  destruct (CreateService_run env w props adv) as (r & w1 & Hcreate & Hcfg & Hsvc & Hret).
  assert (Hidx : serviceIndex w1 = serviceIndex w + 1).
  { unfold serviceIndex at 1. rewrite Hcfg. cbn.
    apply wrap_int_id. unfold is_int. fold (serviceIndex w). lia. }
  exists r, w1. split; [exact Hcreate |]. split; [exact Hidx |].
  split; [exact Hsvc |].
  intros s Hs. unfold Path at 1, GattService1_Path. rewrite (Hret s Hs).
  unfold CreateService_config, service_prefix. cbn [svc_objectPath].
  fold (serviceIndex w1). rewrite Hidx.
  unfold Path, Application_Path. rewrite Hcfg. reflexivity.
Qed.

Lemma CreateService_paths_fresh_witness :
  exists paths fin w',
    run_calls sample_calls calm_env sample_world = (paths, fin, w')
    /\ paths = (fun k : nat => service_prefix (w_app sample_world) +:+ "/service"
                                +:+ Itoa (serviceIndex sample_world + Z.of_nat k))
               <$> seq 1 (length paths)
    /\ NoDup paths
    /\ serviceIndex w' = serviceIndex sample_world + Z.of_nat (length paths)
    /\ serviceIndex sample_world <= serviceIndex w'
    /\ (length paths <= creations sample_calls)%nat
    /\ (fin = true -> length paths = creations sample_calls)
    /\ (forall props adv, serviceIndex sample_world < maxInt ->
          exists r w1,
            CreateService props adv calm_env sample_world = (Ret r, w1)
            /\ serviceIndex w1 = serviceIndex sample_world + 1
            /\ services (w_app w1) = services (w_app sample_world)
            /\ forall s, r.1 = Some s ->
                 Path s = service_prefix (w_app sample_world) +:+ "/service"
                            +:+ Itoa (serviceIndex sample_world + 1)).
Proof.
  apply (CreateService_paths_fresh calm_env sample_calls sample_world).
  - vm_compute. discriminate.
  - vm_compute. discriminate.
Defined.

(** The sample run, computed: three creations, three paths, the first of
    them not handed out again after its service was removed. *)
Lemma sample_calls_paths :
  let '(paths, fin, w') := run_calls sample_calls calm_env sample_world in
  paths = ["/org/example/app/service1"; "/org/example/app/service2";
           "/org/example/app/service3"]
  /\ fin = true
  /\ serviceIndex w' = 3
  /\ services (w_app w') !! "/org/example/app/service1" = None.
Proof. vm_compute. repeat split. Qed.

(** At the root path the prefix is empty. *)
Lemma CreateService_at_root :
  let '(r, w') := CreateService heart_rate_props [] calm_env (world_of root_app) in
  exists s, r = Ret (Some s, None) /\ Path s = "/service1".
Proof. vm_compute. eexists. split; reflexivity. Qed.

(** * Further properties of the code *)

(** ** Strings *)

Lemma string_app_nil (t : string) : "" +:+ t = t.
Proof. reflexivity. Qed.

Lemma string_app_cons (a : Ascii.ascii) (s t : string) :
  String a s +:+ t = String a (s +:+ t).
Proof. reflexivity. Qed.

Lemma string_app_assoc (s1 s2 s3 : string) :
  (s1 +:+ s2) +:+ s3 = s1 +:+ (s2 +:+ s3).
Proof.
  induction s1 as [| a s1 IH]; [reflexivity |].
  rewrite !string_app_cons, IH. reflexivity.
Qed.

Lemma string_length_app (s1 s2 : string) :
  String.length (s1 +:+ s2) = (String.length s1 + String.length s2)%nat.
Proof.
  induction s1 as [| a s1 IH]; [reflexivity |].
  rewrite string_app_cons. cbn. rewrite IH. reflexivity.
Qed.

Lemma string_app_inj_r (s1 s2 t : string) : s1 +:+ t = s2 +:+ t -> s1 = s2.
Proof.
  revert s2. induction s1 as [| a s1 IH]; intros [| b s2] Heq.
  - reflexivity.
  - apply (f_equal String.length) in Heq.
    rewrite string_app_nil, string_app_cons in Heq. cbn in Heq.
    rewrite string_length_app in Heq. lia.
  - apply (f_equal String.length) in Heq.
    rewrite string_app_nil, string_app_cons in Heq. cbn in Heq.
    rewrite string_length_app in Heq. lia.
  - rewrite !string_app_cons in Heq. injection Heq as -> Heq.
    f_equal. apply IH. exact Heq.
Qed.

(** ** UUID construction, continued *)

(** X1: a value that, once the configured base is put in front, has eight
    characters names the same UUID as that eight-character full form. *)
Theorem GenerateUUID_full_form (app : Application) (value : string) :
  String.length (cfg_UUID (config app) +:+ value) = 8%nat ->
  GenerateUUID app (cfg_UUID (config app) +:+ value) = GenerateUUID app value.
Proof.
  intros Hlen. unfold GenerateUUID.
  destruct (decide (String.length (cfg_UUID (config app) +:+ value) = 8%nat));
    [| contradiction].
  destruct (decide (String.length value = 8%nat)) as [Hv |].
  - rewrite string_length_app, Hv in Hlen.
    destruct (cfg_UUID (config app)); [reflexivity | cbn in Hlen; lia].
  - rewrite string_app_nil. apply string_app_assoc.
Qed.

Lemma GenerateUUID_full_form_witness :
  GenerateUUID sample_app ("0000" +:+ "180D") = GenerateUUID sample_app "180D".
Proof.
  apply (GenerateUUID_full_form sample_app "180D"). reflexivity.
Defined.

(** X2: on values of one length [GenerateUUID] loses nothing: two values of
    the same length with the same UUID are the same value. *)
Theorem GenerateUUID_inj_same_length (app : Application) (v1 v2 : string) :
  String.length v1 = String.length v2 ->
  GenerateUUID app v1 = GenerateUUID app v2 ->
  v1 = v2.
Proof.
  intros Hlen. unfold GenerateUUID. rewrite Hlen.
  destruct (decide (String.length v2 = 8%nat)); intros Heq.
  - rewrite !string_app_nil in Heq. apply string_app_inj_r in Heq. exact Heq.
  - apply (inj (String.app _)) in Heq. apply string_app_inj_r in Heq. exact Heq.
Qed.

Lemma GenerateUUID_inj_same_length_witness : "2A37" = "2A37".
Proof.
  apply (GenerateUUID_inj_same_length sample_app "2A37" "2A37"); reflexivity.
Defined.

(** ** Callback dispatch, continued *)

(** X3: the error of a handler tells its cause: code -1 means that the slot
    was nil, code -2 that the registered callback failed with the error's
    message; there is no other code. *)
Theorem dispatch_error_codes (app : Application) (srv chr dsc : string)
    (value : slice Byte.byte) :
  (forall b e, HandleRead app srv chr = (b, Some e) ->
     (code e = -1 /\ ReadFunc (config app) = None)
     \/ (code e = -2 /\ exists f, ReadFunc (config app) = Some f
                          /\ f (snapshot app) srv chr = (b, Some (Error e))))
  /\ (forall e, HandleWrite app srv chr value = Some e ->
     (code e = -1 /\ WriteFunc (config app) = None)
     \/ (code e = -2 /\ exists f, WriteFunc (config app) = Some f
                          /\ f (snapshot app) srv chr value = Some (Error e)))
  /\ (forall b e, HandleDescriptorRead app srv chr dsc = (b, Some e) ->
     (code e = -1 /\ DescReadFunc (config app) = None)
     \/ (code e = -2 /\ exists f, DescReadFunc (config app) = Some f
                          /\ f (snapshot app) srv chr dsc = (b, Some (Error e))))
  /\ (forall e, HandleDescriptorWrite app srv chr dsc value = Some e ->
     (code e = -1 /\ DescWriteFunc (config app) = None)
     \/ (code e = -2 /\ exists f, DescWriteFunc (config app) = Some f
                          /\ f (snapshot app) srv chr dsc value = Some (Error e))).
Proof.
  unfold HandleRead, HandleWrite, HandleDescriptorRead, HandleDescriptorWrite.
  split; [| split; [| split]].
  - intros b e. destruct (ReadFunc (config app)) as [f |].
    + destruct (f (snapshot app) srv chr) as [b' [e' |]] eqn:Hf; intros [= <- <-].
      right. split; [reflexivity |]. exists f. split; [reflexivity | exact Hf].
    + intros [= <- <-]. left. split; reflexivity.
  - intros e. destruct (WriteFunc (config app)) as [f |].
    + destruct (f (snapshot app) srv chr value) as [e' |] eqn:Hf; intros [= <-].
      right. split; [reflexivity |]. exists f. split; [reflexivity | exact Hf].
    + intros [= <-]. left. split; reflexivity.
  - intros b e. destruct (DescReadFunc (config app)) as [f |].
    + destruct (f (snapshot app) srv chr dsc) as [b' [e' |]] eqn:Hf; intros [= <- <-].
      right. split; [reflexivity |]. exists f. split; [reflexivity | exact Hf].
    + intros [= <- <-]. left. split; reflexivity.
  - intros e. destruct (DescWriteFunc (config app)) as [f |].
    + destruct (f (snapshot app) srv chr dsc value) as [e' |] eqn:Hf; intros [= <-].
      right. split; [reflexivity |]. exists f. split; [reflexivity | exact Hf].
    + intros [= <-]. left. split; reflexivity.
Qed.

Lemma dispatch_error_codes_witness :
  ((code {| msg := "read refused"; code := -2 |} = -1
    /\ ReadFunc (config failing_app) = None)
   \/ (code {| msg := "read refused"; code := -2 |} = -2
       /\ exists f, ReadFunc (config failing_app) = Some f
            /\ f (snapshot failing_app) "180D" "2A37"
               = (make_slice [Byte.x01], Some "read refused")))
  /\ ((code {| msg := "No callback registered."; code := -1 |} = -1
       /\ WriteFunc (config sample_app) = None)
      \/ (code {| msg := "No callback registered."; code := -1 |} = -2
          /\ exists f, WriteFunc (config sample_app) = Some f
               /\ f (snapshot sample_app) "180D" "2A37" nil_slice
                  = Some "No callback registered.")).
Proof.
  pose proof (dispatch_error_codes failing_app "180D" "2A37" "2902" nil_slice)
    as (R & _).
  pose proof (dispatch_error_codes sample_app "180D" "2A37" "2902" nil_slice)
    as (_ & W & _).
  split.
  - apply (R (make_slice [Byte.x01]) {| msg := "read refused"; code := -2 |}).
    reflexivity.
  - apply (W {| msg := "No callback registered."; code := -1 |}). reflexivity.
Defined.

(** X4: a handler reports no error exactly when a callback is registered and
    that callback reports none. *)
Theorem dispatch_nil_iff_served (app : Application) (srv chr dsc : string)
    (value : slice Byte.byte) :
  ((HandleRead app srv chr).2 = None
     <-> exists f, ReadFunc (config app) = Some f
           /\ (f (snapshot app) srv chr).2 = None)
  /\ (HandleWrite app srv chr value = None
     <-> exists f, WriteFunc (config app) = Some f
           /\ f (snapshot app) srv chr value = None)
  /\ ((HandleDescriptorRead app srv chr dsc).2 = None
     <-> exists f, DescReadFunc (config app) = Some f
           /\ (f (snapshot app) srv chr dsc).2 = None)
  /\ (HandleDescriptorWrite app srv chr dsc value = None
     <-> exists f, DescWriteFunc (config app) = Some f
           /\ f (snapshot app) srv chr dsc value = None).
Proof.
  unfold HandleRead, HandleWrite, HandleDescriptorRead, HandleDescriptorWrite.
  split; [| split; [| split]].
  - destruct (ReadFunc (config app)) as [f |]; cbn.
    + destruct (f (snapshot app) srv chr) as [b [e |]] eqn:Hf; cbn; split.
      * discriminate.
      * intros (g & [= <-] & Hg). rewrite Hf in Hg. discriminate Hg.
      * intros _. exists f. rewrite Hf. split; reflexivity.
      * reflexivity.
    + split; [discriminate | intros (g & Hg & _); discriminate Hg].
  - destruct (WriteFunc (config app)) as [f |].
    + destruct (f (snapshot app) srv chr value) as [e |] eqn:Hf; split.
      * discriminate.
      * intros (g & [= <-] & Hg). rewrite Hf in Hg. discriminate Hg.
      * intros _. exists f. split; [reflexivity | exact Hf].
      * reflexivity.
    + split; [discriminate | intros (g & Hg & _); discriminate Hg].
  - destruct (DescReadFunc (config app)) as [f |]; cbn.
    + destruct (f (snapshot app) srv chr dsc) as [b [e |]] eqn:Hf; cbn; split.
      * discriminate.
      * intros (g & [= <-] & Hg). rewrite Hf in Hg. discriminate Hg.
      * intros _. exists f. rewrite Hf. split; reflexivity.
      * reflexivity.
    + split; [discriminate | intros (g & Hg & _); discriminate Hg].
  - destruct (DescWriteFunc (config app)) as [f |].
    + destruct (f (snapshot app) srv chr dsc value) as [e |] eqn:Hf; split.
      * discriminate.
      * intros (g & [= <-] & Hg). rewrite Hf in Hg. discriminate Hg.
      * intros _. exists f. split; [reflexivity | exact Hf].
      * reflexivity.
    + split; [discriminate | intros (g & Hg & _); discriminate Hg].
Qed.

(** ** Construction of the application *)

(** X5: [NewApplication] returns an application exactly when the name and
    the path are non-empty, a connection is at hand (given, or obtained from
    the system bus) and the object manager could be built; it then carries
    the given configuration and object manager, no service and no
    advertisement.  In every other case it returns an error and no
    application. *)
Theorem NewApplication_result (config0 : ApplicationConfig) (has_conn : bool)
    (SystemBus : option error) (om : ObjectManager) (om_err : option error) :
  let r := NewApplication config0 has_conn SystemBus (om, om_err) in
  let ready := cfg_ObjectName config0 <> "" /\ cfg_ObjectPath config0 <> ""
               /\ (has_conn = true \/ SystemBus = None) /\ om_err = None in
  (ready ->
     r = (Some {| config := config0; objectManager := om;
                  services := ∅; advertisement := None |}, None))
  /\ (~ ready -> exists e, r = (None, Some e))
  /\ (cfg_ObjectName config0 = "" -> r = (None, Some "objectName is required"))
  /\ (forall app, r.1 = Some app ->
        Name app <> "" /\ Path app <> "" /\ registered_paths app = []).
Proof.
  cbn zeta. unfold NewApplication.
  destruct (decide (cfg_ObjectName config0 = "")) as [Hname | Hname].
  { split; [intros (H & _); contradiction |].
    split; [eauto |]. split; [reflexivity |]. intros app [=]. }
  destruct (decide (cfg_ObjectPath config0 = "")) as [Hpath | Hpath].
  { split; [intros (_ & H & _); contradiction |].
    split; [eauto |]. split; [contradiction |]. intros app [=]. }
  destruct has_conn, SystemBus as [e |], om_err as [e' |]; cbn.
  all: split; [try (intros (_ & _ & [H | H] & H'); congruence); reflexivity |].
  all: split; [try (intros _; eexists; reflexivity);
               intros Hn; exfalso; apply Hn; repeat split; auto |].
  all: split; [contradiction |].
  all: intros app [= <-] || intros app [=].
  all: repeat split; assumption.
Qed.

Lemma NewApplication_result_witness :
  NewApplication sample_config false None ({| objects := ∅ |}, None)
    = (Some sample_app, None)
  /\ (exists e, NewApplication sample_config false (Some "no system bus")
                  ({| objects := ∅ |}, None) = (None, Some e)).
Proof.
  pose proof (NewApplication_result sample_config false None {| objects := ∅ |} None)
    as (Hready & _).
  pose proof (NewApplication_result sample_config false (Some "no system bus")
                {| objects := ∅ |} None) as (_ & Hfail & _).
  split.
  - apply Hready. repeat split; try discriminate. right. reflexivity.
  - apply Hfail. intros (_ & _ & [H | H] & _); discriminate H.
Defined.

(** ** Frames *)

Lemma keeps_ret {X A} (f : World -> X) (a : A) : keeps f (ret a).
Proof. intros env w. reflexivity. Qed.

Lemma keeps_bind {X A B} (f : World -> X) (m : M A) (k : A -> M B) :
  keeps f m -> (forall a, keeps f (k a)) -> keeps f (bind m k).
Proof.
  intros Hm Hk env w. unfold bind.
  specialize (Hm env w). destruct (m env w) as [[a | why] w1]; cbn in *.
  - rewrite Hk. exact Hm.
  - exact Hm.
Qed.

Lemma keeps_foldM {X A B} (f : World -> X) (g : B -> A -> M B) (l : list A) :
  (forall acc x, keeps f (g acc x)) -> forall acc, keeps f (foldM g acc l).
Proof.
  intros Hg. induction l as [| x l IH]; intros acc; cbn [foldM].
  - apply keeps_ret.
  - apply keeps_bind; [apply Hg | exact IH].
Qed.

(** A primitive action, by computation. *)
Ltac keeps_prim :=
  let env := fresh "env" in
  let w := fresh "w" in
  intros env w;
  unfold interact, conn_Export, go_range, slice_from1, modify_app, get_app,
    ret, panic, calls_of, services_of;
  repeat case_match; cbn;
  rewrite ?daemon_calls_app; cbn; rewrite ?app_nil_r; reflexivity.

Ltac keeps_go :=
  repeat match goal with
         | |- keeps _ (bind _ _) => apply keeps_bind; [| intros ?]
         | |- keeps _ (foldM _ _ _) => apply keeps_foldM; intros ? ?
         | |- keeps _ (match ?x with _ => _ end) => destruct x
         | |- keeps _ _ => solve [keeps_prim]
         end.

Lemma exportTree_keeps_app : keeps w_app exportTree.
Proof.
  unfold exportTree, serviceNodes, characteristicNodes, descriptorNodes.
  keeps_go.
Qed.

Lemma exportTree_keeps_calls : keeps calls_of exportTree.
Proof.
  unfold exportTree, serviceNodes, characteristicNodes, descriptorNodes.
  keeps_go.
Qed.

Lemma advance_0 (w : World) : advance 0 w = w.
Proof. unfold advance. rewrite Nat.add_0_r. destruct w; reflexivity. Qed.

(** ** When [exportTree] panics *)

Lemma nonempty_or_empty (ps : list ObjectPath) :
  {Forall nonempty ps} + {Exists (fun p => p = "") ps}.
Proof.
  apply Forall_Exists_dec. intros p.
  destruct (decide (p = "")) as [Hp | Hp]; [right | left]; exact Hp.
Qed.

Lemma descriptor_loop_panics (env : Env) {V} (l : list (ObjectPath * V)) :
  forall (acc : list Node) (w : World),
    Exists (fun p => p = "") l.*1 ->
    foldM (fun childrenNode '(descPath, _) =>
             run name <~ slice_from1 descPath ;;
             ret (childrenNode ++ [mkNode name [] []]))
          acc l env w
    = (Panic "slice bounds out of range", w).
Proof.
  induction l as [| [p v] l IH]; intros acc w Hex.
  - inversion Hex.
  - cbn [foldM]. unfold bind at 1. unfold slice_from1, bind.
    destruct p as [| a name]; [reflexivity |].
    cbn [from1 ret]. apply IH.
    rewrite fmap_cons in Hex. apply Exists_cons in Hex as [Hex | Hex];
      [discriminate Hex | exact Hex].
Qed.

Lemma descriptorNodes_panics (env : Env) (acc : list Node) (c : GattCharacteristic1)
    (w : World) :
  Exists (fun p => p = "") (descriptor_paths c) ->
  descriptorNodes acc c env w = (Panic "slice bounds out of range", advance 1 w).
Proof.
  intros Hex. unfold descriptorNodes, bind.
  destruct (go_range_run (GetDescriptors c) env w) as (l & Hperm & ->).
  apply descriptor_loop_panics. unfold descriptor_paths in Hex.
  rewrite Hperm. exact Hex.
Qed.

Lemma characteristic_loop_panics (env : Env)
    (l : list (ObjectPath * GattCharacteristic1)) :
  forall (acc : list Node) (w : World),
    Exists (fun p => p = "") (l ≫= λ '(charPath, c), charPath :: descriptor_paths c) ->
    exists n,
      foldM (fun childrenNode '(charPath, char) =>
               run name <~ slice_from1 charPath ;;
               descriptorNodes (childrenNode ++ [mkNode name [] []]) char)
            acc l env w
      = (Panic "slice bounds out of range", advance n w).
Proof.
  induction l as [| [p c] l IH]; intros acc w Hex.
  - inversion Hex.
  - rewrite bind_cons in Hex. cbn [foldM]. unfold bind at 1.
    unfold slice_from1 at 1, bind at 1.
    destruct p as [| a name].
    { exists 0%nat. rewrite advance_0. reflexivity. }
    cbn [from1 ret].
    destruct (nonempty_or_empty (descriptor_paths c)) as [Hds | Hds].
    + destruct (descriptorNodes_run env (acc ++ [mkNode name [] []]) c w Hds)
        as (ps1 & _ & ->).
      apply Exists_app in Hex as [Hex | Hex].
      { apply Exists_cons in Hex as [Hex | Hex]; [discriminate Hex |].
        exfalso. apply Exists_exists in Hex as (q & Hq & ->).
        rewrite Forall_forall in Hds. apply (Hds "" Hq). reflexivity. }
      destruct (IH ((acc ++ [mkNode name [] []]) ++ (leaf_of <$> ps1))
                  (advance 1 w) Hex) as (n & ->).
      exists (1 + n)%nat. rewrite advance_advance. reflexivity.
    + rewrite (descriptorNodes_panics env _ c w Hds). exists 1%nat. reflexivity.
Qed.

Lemma characteristicNodes_panics (env : Env) (acc : list Node) (s : GattService1)
    (w : World) :
  Exists (fun p => p = "") (characteristic_paths s) ->
  exists n,
    characteristicNodes acc s env w = (Panic "slice bounds out of range", advance n w).
Proof.
  intros Hex. unfold characteristicNodes, bind.
  destruct (go_range_run (GetCharacteristics s) env w) as (l & Hperm & ->).
  unfold characteristic_paths in Hex. rewrite <- Hperm in Hex.
  destruct (characteristic_loop_panics env l acc (advance 1 w) Hex) as (n & Hrun).
  exists (1 + n)%nat. cbv beta iota. rewrite <- advance_advance. exact Hrun.
Qed.

Lemma service_loop_panics (env : Env) (l : list (ObjectPath * GattService1)) :
  forall (acc : list Node) (w : World),
    Exists (fun p => p = "")
      (l ≫= λ '(servicePath, s), servicePath :: characteristic_paths s) ->
    exists n,
      foldM (fun childrenNode '(servicePath, service) =>
               run name <~ slice_from1 servicePath ;;
               characteristicNodes (childrenNode ++ [mkNode name [] []]) service)
            acc l env w
      = (Panic "slice bounds out of range", advance n w).
Proof.
  induction l as [| [p s] l IH]; intros acc w Hex.
  - inversion Hex.
  - rewrite bind_cons in Hex. cbn [foldM]. unfold bind at 1.
    unfold slice_from1 at 1, bind at 1.
    destruct p as [| a name].
    { exists 0%nat. rewrite advance_0. reflexivity. }
    cbn [from1 ret].
    destruct (nonempty_or_empty (characteristic_paths s)) as [Hcs | Hcs].
    + destruct (characteristicNodes_run env (acc ++ [mkNode name [] []]) s w Hcs)
        as (ps1 & n1 & _ & ->).
      apply Exists_app in Hex as [Hex | Hex].
      { apply Exists_cons in Hex as [Hex | Hex]; [discriminate Hex |].
        exfalso. apply Exists_exists in Hex as (q & Hq & ->).
        rewrite Forall_forall in Hcs. apply (Hcs "" Hq). reflexivity. }
      destruct (IH ((acc ++ [mkNode name [] []]) ++ (leaf_of <$> ps1))
                  (advance n1 w) Hex) as (n & ->).
      exists (n1 + n)%nat. rewrite advance_advance. reflexivity.
    + destruct (characteristicNodes_panics env (acc ++ [mkNode name [] []]) s w Hcs)
        as (n & ->).
      exists n. reflexivity.
Qed.

Lemma exportTree_panics (env : Env) (w : World) :
  Exists (fun p => p = "") (registered_paths (w_app w)) ->
  exists n, exportTree env w = (Panic "slice bounds out of range", advance n w).
Proof.
  intros Hex. unfold exportTree. unfold bind at 1, get_app.
  unfold bind at 1, serviceNodes, bind at 1.
  destruct (go_range_run (GetServices (w_app w)) env w) as (l & Hperm & ->).
  unfold registered_paths in Hex. rewrite <- Hperm in Hex.
  destruct (service_loop_panics env l [] (advance 1 w) Hex) as (n & Hrun).
  exists (1 + n)%nat. cbv beta iota. rewrite Hrun, advance_advance. reflexivity.
Qed.

(** X6: [exportTree] panics exactly when some registered service,
    characteristic or descriptor path is empty; when it does, nothing has
    been exported or logged and the application is as before. *)
Theorem exportTree_panic_iff (env : Env) (w : World) :
  (Exists (fun p => p = "") (registered_paths (w_app w))
     <-> exists why w', exportTree env w = (Panic why, w'))
  /\ (forall why w', exportTree env w = (Panic why, w') ->
        why = "slice bounds out of range"
        /\ w_app w' = w_app w /\ w_exports w' = w_exports w /\ w_log w' = w_log w).
Proof.
  destruct (nonempty_or_empty (registered_paths (w_app w))) as [Hfull | Hex].
  - destruct (exportTree_run env w Hfull) as (ps & node & w1 & _ & _ & Hrun & _).
    split.
    + split.
      * intros Hex. exfalso. apply Exists_exists in Hex as (q & Hq & ->).
        rewrite Forall_forall in Hfull. apply (Hfull "" Hq). reflexivity.
      * intros (why & w' & Hp). rewrite Hrun in Hp. discriminate Hp.
    + intros why w' Hp. rewrite Hrun in Hp. discriminate Hp.
  - destruct (exportTree_panics env w Hex) as (n & Hrun). split.
    + split; [eauto | intros _; exact Hex].
    + intros why w' Hp. rewrite Hrun in Hp. injection Hp as <- <-.
      repeat split.
Qed.

Lemma exportTree_panic_iff_witness :
  (exists why w', exportTree calm_env pathless_world = (Panic why, w'))
  /\ Exists (fun p => p = "") (registered_paths (w_app pathless_world)).
Proof.
  pose proof (exportTree_panic_iff calm_env pathless_world) as [[Hto Hfrom] _].
  assert (Hex : Exists (fun p => p = "") (registered_paths (w_app pathless_world))).
  { vm_compute registered_paths. constructor. reflexivity. }
  split; [apply Hto; exact Hex | apply Hfrom, Hto; exact Hex].
Defined.

(** X7: whatever its outcome, [exportTree] leaves the application as it was
    and sends nothing to the daemon; unless it returns nil, the exported
    handlers, and so the tree published before, are unchanged as well. *)
Theorem exportTree_frame (env : Env) (w : World) :
  w_app (exportTree env w).2 = w_app w
  /\ calls_of (exportTree env w).2 = calls_of w
  /\ ((exportTree env w).1 <> Ret None ->
      w_exports (exportTree env w).2 = w_exports w
      /\ published_tree (exportTree env w).2 = published_tree w).
Proof.
  split; [apply exportTree_keeps_app |]. split; [apply exportTree_keeps_calls |].
  intros Hr.
  assert (Hexp : w_exports (exportTree env w).2 = w_exports w).
  { destruct (nonempty_or_empty (registered_paths (w_app w))) as [Hfull | Hex].
    - destruct (exportTree_run env w Hfull)
        as (ps & node & w1 & _ & _ & Hrun & _ & _ & _ & Hfail).
      rewrite Hrun in Hr |- *. cbn in *. apply Hfail. congruence.
    - destruct (exportTree_panics env w Hex) as (n & ->). reflexivity. }
  split; [exact Hexp |].
  unfold published_tree. rewrite Hexp, exportTree_keeps_app. reflexivity.
Qed.

Lemma exportTree_frame_witness :
  w_exports (exportTree export_failing_env populated_world).2
    = w_exports populated_world
  /\ published_tree (exportTree export_failing_env populated_world).2
    = published_tree populated_world.
Proof.
  pose proof (exportTree_frame export_failing_env populated_world) as (_ & _ & H).
  apply H. vm_compute. discriminate.
Defined.

(** ** Removing a service *)

Lemma RemoveService_absent_run (env : Env) (w : World) (s : GattService1) :
  services (w_app w) !! Path s = None -> RemoveService s env w = (Ret None, w).
Proof.
  intros Hs. unfold RemoveService, bind, get_app. rewrite Hs. reflexivity.
Qed.

Lemma RemoveService_services (env : Env) (w : World) (s : GattService1) :
  services_of (RemoveService s env w).2 = delete (Path s) (services (w_app w)).
Proof.
  destruct (services (w_app w) !! Path s) as [s0 |] eqn:Hs.
  - unfold RemoveService. unfold bind at 1, get_app. rewrite Hs.
    unfold bind at 1, modify_app.
    match goal with
    | |- services_of (bind ?m ?k ?e ?w1).2 = _ =>
        assert (Hk : keeps services_of (bind m k))
    end.
    { unfold RemoveObject, exportTree, serviceNodes, characteristicNodes,
        descriptorNodes. keeps_go. }
    rewrite Hk. reflexivity.
  - rewrite RemoveService_absent_run by exact Hs.
    rewrite delete_id by exact Hs. reflexivity.
Qed.

Lemma RemoveService_keeps_calls (s : GattService1) : keeps calls_of (RemoveService s).
Proof.
  unfold RemoveService, RemoveObject, exportTree, serviceNodes, characteristicNodes,
    descriptorNodes. keeps_go.
Qed.

Lemma RemoveService_keeps_advertisement (s : GattService1) :
  keeps (fun w => advertisement (w_app w)) (RemoveService s).
Proof.
  unfold RemoveService, RemoveObject, exportTree, serviceNodes, characteristicNodes,
    descriptorNodes. keeps_go.
Qed.

(** X8: removing a service that is not registered does nothing at all: no
    interaction, no change, nil returned. *)
Theorem RemoveService_absent (env : Env) (w : World) (s : GattService1) :
  services (w_app w) !! Path s = None -> RemoveService s env w = (Ret None, w).
Proof. apply RemoveService_absent_run. Qed.

Lemma RemoveService_absent_witness :
  RemoveService heart_rate_service calm_env sample_world = (Ret None, sample_world).
Proof.
  apply (RemoveService_absent calm_env sample_world heart_rate_service).
  reflexivity.
Defined.

(** X9: however [RemoveService] ends (nil, an error from the object manager
    or from the tree export, or a panic), the service map has lost exactly
    the entry at the service's path; the counter, the callbacks, the
    advertisement and the calls sent to the daemon are untouched. *)
Theorem RemoveService_deletes (env : Env) (w : World) (s : GattService1) :
  services_of (RemoveService s env w).2 = delete (Path s) (services (w_app w))
  /\ (forall p, p <> Path s ->
        services_of (RemoveService s env w).2 !! p = services (w_app w) !! p)
  /\ services_of (RemoveService s env w).2 !! Path s = None
  /\ config (w_app (RemoveService s env w).2) = config (w_app w)
  /\ advertisement (w_app (RemoveService s env w).2) = advertisement (w_app w)
  /\ calls_of (RemoveService s env w).2 = calls_of w.
Proof.
  split; [apply RemoveService_services |].
  split; [intros p Hp; rewrite RemoveService_services;
          apply lookup_delete_ne; congruence |].
  split; [rewrite RemoveService_services; apply lookup_delete_eq |].
  split; [apply keeps_config_RemoveService |].
  split; [apply (RemoveService_keeps_advertisement s) |
          apply RemoveService_keeps_calls].
Qed.

(** X10: a second [RemoveService] of the same service, right after one that
    returned, is a no-op. *)
Theorem RemoveService_twice (env : Env) (w w1 : World) (s : GattService1)
    (r : option error) :
  RemoveService s env w = (Ret r, w1) ->
  RemoveService s env w1 = (Ret None, w1).
Proof.
  intros Hrun. apply RemoveService_absent_run.
  pose proof (RemoveService_services env w s) as Hsvc.
  rewrite Hrun in Hsvc. cbn in Hsvc. unfold services_of in Hsvc.
  rewrite Hsvc. apply lookup_delete_eq.
Qed.

Lemma RemoveService_twice_witness :
  exists w1,
    RemoveService heart_rate_service calm_env populated_world = (Ret None, w1)
    /\ RemoveService heart_rate_service calm_env w1 = (Ret None, w1).
Proof.
  eexists. split; [vm_compute; reflexivity |].
  eapply (RemoveService_twice calm_env populated_world _ heart_rate_service None).
  vm_compute. reflexivity.
Defined.

(** ** Adding a service *)

Lemma AddService_outcome (env : Env) (w : World) (s : GattService1) :
  let w1 := {| w_app := set_services (<[Path s := s]> (services (w_app w))) (w_app w);
               w_exports := w_exports w;
               w_log := w_log w ++ [EvServiceExpose s];
               w_tick := w_tick w |} in
  match reply env (w_log w) (EvServiceExpose s) with
  | Some e => AddService s env w = (Ret (Some e), w1)
  | None =>
      match exportTree env w1 with
      | (Ret (Some e), w2) => AddService s env w = (Ret (Some e), w2)
      | (Ret None, w2) =>
          AddService s env w
          = (Ret (reply env (w_log w2) (EvSignalAdded (Path s) (svc_Properties s))),
             {| w_app := set_objectManager
                           {| objects := <[Path s := svc_Properties s]>
                                           (objects (objectManager (w_app w2))) |}
                           (w_app w2);
                w_exports := w_exports w2;
                w_log := w_log w2 ++ [EvSignalAdded (Path s) (svc_Properties s)];
                w_tick := w_tick w2 |})
      | (Panic why, w2) => AddService s env w = (Panic why, w2)
      end
  end.
Proof.
  cbn zeta.
  unfold AddService, AddObject, bind, modify_app, svc_Expose, interact, ret.
  cbn [w_app w_exports w_log w_tick].
  destruct (reply env (w_log w) (EvServiceExpose s)) as [e |]; [reflexivity |].
  destruct (exportTree env _) as [[[e |] | why] w2]; [reflexivity | | reflexivity].
  cbn [w_app w_exports w_log w_tick].
  destruct (reply env (w_log w2) _); reflexivity.
Qed.

Lemma AddService_services (env : Env) (w : World) (s : GattService1) :
  services_of (AddService s env w).2 = <[Path s := s]> (services (w_app w)).
Proof.
  pose proof (AddService_outcome env w s) as H. cbn zeta in H.
  destruct (reply env (w_log w) (EvServiceExpose s)) as [e |].
  { rewrite H. reflexivity. }
  match type of H with
  | context [exportTree env ?w1] =>
      pose proof (exportTree_keeps_app env w1) as Happ;
      destruct (exportTree env w1) as [[[e |] | why] w2]
  end; rewrite H; cbn in Happ |- *; unfold services_of; cbn; rewrite Happ; reflexivity.
Qed.

(** X11: however [AddService] ends, the service map holds the service under
    its path (replacing what was there) and is otherwise unchanged; the
    counter and the callbacks are untouched. *)
Theorem AddService_records (env : Env) (w : World) (s : GattService1) :
  services_of (AddService s env w).2 !! Path s = Some s
  /\ (forall p, p <> Path s ->
        services_of (AddService s env w).2 !! p = services (w_app w) !! p)
  /\ config (w_app (AddService s env w).2) = config (w_app w).
Proof.
  rewrite AddService_services.
  split; [apply lookup_insert_eq |].
  split; [intros p Hp; apply lookup_insert_ne; congruence |].
  apply keeps_config_AddService.
Qed.

(** X12: adding a service under a path that was free and then removing it
    gives back the service map as it was. *)
Theorem AddService_RemoveService (env : Env) (w w1 : World) (s : GattService1)
    (r : option error) :
  services (w_app w) !! Path s = None ->
  AddService s env w = (Ret r, w1) ->
  services_of (RemoveService s env w1).2 = services (w_app w).
Proof.
  intros Hfree Hadd. rewrite RemoveService_services.
  pose proof (AddService_services env w s) as Hsvc.
  rewrite Hadd in Hsvc. cbn in Hsvc. unfold services_of in Hsvc.
  rewrite Hsvc, delete_insert_eq. apply delete_id. exact Hfree.
Qed.

Lemma AddService_RemoveService_witness :
  exists w1,
    AddService heart_rate_service calm_env sample_world = (Ret None, w1)
    /\ services_of (RemoveService heart_rate_service calm_env w1).2
       = services (w_app sample_world).
Proof.
  eexists. split; [vm_compute; reflexivity |].
  eapply (AddService_RemoveService calm_env sample_world _ heart_rate_service None).
  - reflexivity.
  - vm_compute. reflexivity.
Defined.







(** ** The advertisement object, continued *)

(** X15: [NewLEAdvertisement1] returns either an object or an error, never
    both and never neither; the object carries the configuration and the
    properties it was given; nothing is exported and the daemon is not
    called. *)
Theorem NewLEAdvertisement1_result (env : Env) (w : World)
    (cfg : LEAdvertisement1Config) (props : LEAdvertisement1Properties) :
  w_app (NewLEAdvertisement1 cfg props env w).2 = w_app w
  /\ w_exports (NewLEAdvertisement1 cfg props env w).2 = w_exports w
  /\ calls_of (NewLEAdvertisement1 cfg props env w).2 = calls_of w
  /\ ((exists e, (NewLEAdvertisement1 cfg props env w).1 = Ret (None, Some e))
      \/ (exists ad,
            (NewLEAdvertisement1 cfg props env w).1 = Ret (Some ad, None)
            /\ ad_config ad = cfg /\ ad_properties ad = props
            /\ Path ad = ad_objectPath cfg
            /\ w_log (NewLEAdvertisement1 cfg props env w).2
               = w_log w ++ [EvNewProperties;
                             EvAddProperties LEAdvertisement1Interface
                               (AdvertisementProps props)])).
Proof.
  unfold NewLEAdvertisement1, bind, interact, ret, calls_of.
  cbn [w_app w_exports w_log w_tick].
  destruct (reply env (w_log w) EvNewProperties) as [e1 |]; cbn.
  { rewrite daemon_calls_app. cbn. rewrite app_nil_r. eauto 10. }
  destruct (reply env _ (EvAddProperties _ _)) as [e2 |]; cbn.
  all: rewrite !daemon_calls_app; cbn; rewrite !app_nil_r.
  - eauto 10.
  - repeat split. right. eexists. repeat split.
    rewrite <- app_assoc. reflexivity.
Qed.

Lemma ad_Expose_cases (env : Env) (ad : LEAdvertisement1) (w : World) :
  exists r setup w',
    ad_Expose ad env w = (Ret r, w')
    /\ w_app w' = w_app w
    /\ w_log w' = w_log w ++ setup
    /\ daemon_calls setup = []
    /\ ((r <> None /\ w_exports w' = w_exports w
         /\ r = reply env (w_log w)
                  (EvExport (ExAdvertisement ad) (Path ad) LEAdvertisement1Interface))
        \/ (reply env (w_log w)
              (EvExport (ExAdvertisement ad) (Path ad) LEAdvertisement1Interface) = None
            /\ w_exports w' !! (Path ad, LEAdvertisement1Interface)
               = Some (ExAdvertisement ad)
            /\ (r = None ->
                w_exports w' !! (Path ad, "org.freedesktop.DBus.Introspectable")
                = Some (ExIntrospectable (advertisement_node ad)))
            /\ (r <> None ->
                w_exports w'
                = <[(Path ad, LEAdvertisement1Interface) := ExAdvertisement ad]>
                    (w_exports w)))).
Proof.
  unfold ad_Expose, bind, conn_Export.
  change (Interface ad) with LEAdvertisement1Interface.
  destruct (reply env (w_log w) (EvExport (ExAdvertisement ad) _ _)) as [e |] eqn:H1.
  { eexists _, [_], _. split; [reflexivity |]. cbn.
    split; [reflexivity |]. split; [reflexivity |]. split; [reflexivity |].
    left. split; [discriminate |]. split; reflexivity. }
  unfold go_range. cbn [w_tick w_log w_app w_exports].
  rewrite ad_Properties_entries.
  cbn [foldM]. unfold bind, interact, ret. cbn [w_tick w_log w_app w_exports].
  destruct (reply env _ (EvExport (ExIntrospectable _) _ _)) as [e |] eqn:H2.
  - eexists _, [_; _; _; _], _. split; [reflexivity |]. cbn.
    split; [reflexivity |]. split; [rewrite <- !app_assoc; reflexivity |].
    split; [reflexivity |]. right. split; [reflexivity |].
    split; [apply lookup_insert_eq |]. split; [discriminate | reflexivity].
  - eexists _, [_; _; _; _], _. split; [reflexivity |]. cbn.
    split; [reflexivity |]. split; [rewrite <- !app_assoc; reflexivity |].
    split; [reflexivity |]. right. split; [reflexivity |].
    split.
    { rewrite lookup_insert_ne by (intros [= _ Hiface]; discriminate Hiface).
      apply lookup_insert_eq. }
    split; [intros _; apply lookup_insert_eq | congruence].
Qed.


(** ** Advertising, continued *)

Lemma StartAdvertising_cases (env : Env) (w : World) (device_name : string) :
  advertisement (w_app w) = None ->
  exists uuids r setup w',
    uuids ≡ₚ advertised_uuids (w_app w)
    /\ StartAdvertising device_name env w = (Ret r, w')
    /\ w_log w' = w_log w ++ setup
    /\ services (w_app w') = services (w_app w)
    /\ ((r <> None /\ advertisement (w_app w') = None
         /\ daemon_calls setup = [] /\ w_exports w' = w_exports w)
        \/ (r <> None
            /\ advertisement (w_app w')
               = Some (advertisement_for device_name
                         (cfg_LocalName (config (w_app w))) uuids)
            /\ daemon_calls setup = [])
        \/ (advertisement (w_app w')
            = Some (advertisement_for device_name
                      (cfg_LocalName (config (w_app w))) uuids)
            /\ daemon_calls setup = [register_call device_name]
            /\ (exists pre, setup = pre ++ [register_call device_name]
                  /\ r = reply env (w_log w ++ pre) (register_call device_name))
            /\ w_exports w' !! ("/org/bluez/advertisement/0", LEAdvertisement1Interface)
               = Some (ExAdvertisement
                         (advertisement_for device_name
                            (cfg_LocalName (config (w_app w))) uuids)))).
Proof.
  intros Hnone.
  destruct (advertisedUUIDs_run env (w_app w) w) as (uuids & Hperm & Hrun).
  exists uuids.
  unfold StartAdvertising, NewLEAdvertisement1, bind, get_app, interact,
    modify_app, ret.
  rewrite Hnone, Hrun. cbn [w_app w_exports w_log w_tick advance].
  destruct (reply env (w_log w) EvNewProperties) as [e1 |].
  { eexists _, [_], _. split; [exact Hperm |]. split; [reflexivity |].
    cbn. split; [reflexivity |]. split; [reflexivity |].
    left. repeat split. discriminate. }
  destruct (reply env _ (EvAddProperties _ _)) as [e2 |].
  { eexists _, [_; _], _. split; [exact Hperm |]. split; [reflexivity |].
    cbn. split; [rewrite <- app_assoc; reflexivity |]. split; [reflexivity |].
    left. repeat split. discriminate. }
  cbn [w_app w_exports w_log w_tick].
  set (ad := {| ad_config := _; ad_properties := _ |}).
  set (w1 := {| w_app := set_advertisement (Some ad) (w_app w); w_exports := _;
                w_log := _; w_tick := _ |}).
  destruct (ad_Expose_cases env ad w1)
    as (r & setup & w2 & Hexpose & Happ2 & Hlog2 & Hquiet & Hcases).
  rewrite Hexpose.
  assert (Hlog : w_log w2 = w_log w ++ ([EvNewProperties;
            EvAddProperties LEAdvertisement1Interface
              (AdvertisementProps (ad_properties ad))] ++ setup)).
  { rewrite Hlog2. subst w1. cbn [w_log]. rewrite <- !app_assoc. reflexivity. }
  destruct r as [e3 |].
  { eexists _, _, _. split; [exact Hperm |]. split; [reflexivity |].
    split; [exact Hlog |]. split; [rewrite Happ2; reflexivity |].
    right. left. split; [discriminate |]. split; [rewrite Happ2; reflexivity |].
    rewrite daemon_calls_app, Hquiet. reflexivity. }
  destruct Hcases as [(Hbad & _) | (_ & Hexported & _)]; [contradiction |].
  unfold RegisterAdvertisement. cbn [ad_objectPath].
  fold (register_call device_name).
  exists (reply env (w_log w2) (register_call device_name)).
  exists (([EvNewProperties;
            EvAddProperties LEAdvertisement1Interface
              (AdvertisementProps (ad_properties ad))] ++ setup)
          ++ [register_call device_name]).
  eexists.
  split; [exact Hperm |].
  split; [destruct (reply env (w_log w2) (register_call device_name)); reflexivity |].
  cbn [w_app w_log w_exports].
  split; [rewrite Hlog, <- !app_assoc; reflexivity |].
  split; [rewrite Happ2; reflexivity |].
  right. right. split; [rewrite Happ2; reflexivity |].
  split; [rewrite !daemon_calls_app, Hquiet; reflexivity |].
  split; [| exact Hexported].
  eexists. split; [reflexivity |]. rewrite Hlog. reflexivity.
Qed.

(** X17: from a state without advertisement, [StartAdvertising] never panics,
    never touches the services and sends at most one call to the daemon.  It
    ends in one of three ways: an error from the construction, with no
    advertisement referenced, nothing exported and no call; an error from the
    export, with the advertisement already referenced and no call; or exactly
    one RegisterAdvertisement call, the last interaction of the run, whose
    answer at that point is what is returned, with the advertisement
    referenced and exported.  So nil is returned only when the call was made
    and the daemon answered it with nil. *)
Theorem StartAdvertising_outcomes (env : Env) (w : World) (device_name : string) :
  advertisement (w_app w) = None ->
  exists r w',
    StartAdvertising device_name env w = (Ret r, w')
    /\ services (w_app w') = services (w_app w)
    /\ ((r <> None /\ advertisement (w_app w') = None
         /\ calls_of w' = calls_of w /\ w_exports w' = w_exports w)
        \/ (r <> None /\ advertisement (w_app w') <> None
            /\ calls_of w' = calls_of w)
        \/ (exists ad pre, advertisement (w_app w') = Some ad
            /\ Path ad = "/org/bluez/advertisement/0"
            /\ ad_device_path (ad_config ad) = "/org/bluez/" +:+ device_name
            /\ LocalName (ad_properties ad) = cfg_LocalName (config (w_app w))
            /\ w_log w' = w_log w ++ pre ++ [register_call device_name]
            /\ daemon_calls pre = []
            /\ calls_of w' = calls_of w ++ [register_call device_name]
            /\ r = reply env (w_log w ++ pre) (register_call device_name)
            /\ w_exports w' !! ("/org/bluez/advertisement/0", LEAdvertisement1Interface)
               = Some (ExAdvertisement ad)))
    /\ (r = None ->
        exists pre,
          w_log w' = w_log w ++ pre ++ [register_call device_name]
          /\ daemon_calls pre = []
          /\ reply env (w_log w ++ pre) (register_call device_name) = None).
Proof.
  intros Hnone.
  destruct (StartAdvertising_cases env w device_name Hnone)
    as (uuids & r & setup & w' & _ & Hrun & Hlog & Hsvc & Hcases).
  exists r, w'. split; [exact Hrun |]. split; [exact Hsvc |].
  unfold calls_of. rewrite Hlog, daemon_calls_app.
  destruct Hcases as [(Hr & Had & Hquiet & Hexp)
                     | [(Hr & Had & Hquiet)
                       | (Had & Hcall & (pre & -> & Hreply) & Hexp)]].
  - split; [| intros ->; contradiction].
    left. rewrite Hquiet, app_nil_r. auto.
  - split; [| intros ->; contradiction].
    right. left. rewrite Hquiet, app_nil_r, Had.
    repeat split; [exact Hr | discriminate].
  - assert (Hpre : daemon_calls pre = []).
    { rewrite daemon_calls_app in Hcall.
      apply (app_inv_tail [register_call device_name]). exact Hcall. }
    split.
    + right. right. exists (advertisement_for device_name
                              (cfg_LocalName (config (w_app w))) uuids), pre.
      rewrite Hcall.
      split; [exact Had |]. split; [reflexivity |]. split; [reflexivity |].
      split; [reflexivity |]. split; [reflexivity |]. split; [exact Hpre |].
      split; [reflexivity |]. split; [exact Hreply | exact Hexp].
    + intros Hnil. exists pre. split; [reflexivity |]. split; [exact Hpre |].
      rewrite <- Hreply. exact Hnil.
Qed.

Lemma StartAdvertising_outcomes_witness :
  exists r w',
    StartAdvertising "hci0" refusing_env populated_world = (Ret r, w')
    /\ services (w_app w') = services (w_app populated_world)
    /\ r = Some "org.bluez.Error.Failed".
Proof.
  destruct (StartAdvertising_outcomes refusing_env populated_world "hci0" eq_refl)
    as (r & w' & Hrun & Hsvc & _).
  exists r, w'. split; [exact Hrun |]. split; [exact Hsvc |].
  vm_compute in Hrun. congruence.
Defined.

(** X18: a refused registration sticks: when [StartAdvertising] called the
    daemon and got an error back, the advertisement stays referenced, so the
    next [StartAdvertising], for whatever device, returns nil without any
    interaction, although nothing is registered. *)
Theorem StartAdvertising_refused_sticks (env : Env) (w w' : World)
    (device_name : string) (e : error) :
  advertisement (w_app w) = None ->
  StartAdvertising device_name env w = (Ret (Some e), w') ->
  calls_of w' <> calls_of w ->
  advertisement (w_app w') <> None
  /\ forall device_name', StartAdvertising device_name' env w' = (Ret None, w').
Proof.
  intros Hnone Hrun Hcalled.
  destruct (StartAdvertising_cases env w device_name Hnone)
    as (uuids & r & setup & w2 & _ & Hrun2 & Hlog & _ & Hcases).
  rewrite Hrun in Hrun2. injection Hrun2 as <- <-.
  assert (Had : advertisement (w_app w') <> None).
  { destruct Hcases as [(_ & _ & Hquiet & _) | [(_ & _ & Hquiet) | (Had & _)]].
    - exfalso. apply Hcalled. unfold calls_of.
      rewrite Hlog, daemon_calls_app, Hquiet. apply app_nil_r.
    - exfalso. apply Hcalled. unfold calls_of.
      rewrite Hlog, daemon_calls_app, Hquiet. apply app_nil_r.
    - rewrite Had. discriminate. }
  split; [exact Had |].
  intros device_name'. unfold StartAdvertising, bind, get_app.
  destruct (advertisement (w_app w')); [reflexivity | contradiction].
Qed.

Lemma StartAdvertising_refused_sticks_witness :
  exists w',
    StartAdvertising "hci0" refusing_env populated_world
      = (Ret (Some "org.bluez.Error.Failed"), w')
    /\ advertisement (w_app w') <> None
    /\ StartAdvertising "hci1" refusing_env w' = (Ret None, w').
Proof.
  destruct (StartAdvertising "hci0" refusing_env populated_world) as [r w'] eqn:Hrun.
  assert (Hr : r = Ret (Some "org.bluez.Error.Failed"))
    by (vm_compute in Hrun; congruence).
  subst r.
  assert (Hcalled : calls_of w' <> calls_of populated_world).
  { vm_compute in Hrun. injection Hrun as <-. vm_compute. discriminate. }
  destruct (StartAdvertising_refused_sticks refusing_env populated_world w' "hci0"
              "org.bluez.Error.Failed" eq_refl Hrun Hcalled) as (Had & Hnext).
  exists w'. split; [reflexivity |]. split; [exact Had | apply Hnext].
Defined.

(** X19: [StopAdvertising] undoes what [StartAdvertising] referenced: after
    a [StartAdvertising] that left an advertisement referenced (registered,
    refused, or only exported), [StopAdvertising] sends one
    UnregisterAdvertisement call to the same device path with the same
    advertisement path, returns the daemon's answer and clears the
    reference, so that advertising can be started again; the object exported
    for the advertisement stays exported and the services are untouched. *)
Theorem StartAdvertising_StopAdvertising (env : Env) (w w1 : World)
    (device_name : string) (r : option error) :
  advertisement (w_app w) = None ->
  StartAdvertising device_name env w = (Ret r, w1) ->
  advertisement (w_app w1) <> None ->
  exists w2,
    StopAdvertising env w1
      = (Ret (reply env (w_log w1) (unregister_call device_name)), w2)
    /\ calls_of w2 = calls_of w1 ++ [unregister_call device_name]
    /\ advertisement (w_app w2) = None
    /\ w_exports w2 = w_exports w1
    /\ services (w_app w2) = services (w_app w)
    /\ config (w_app w2) = config (w_app w1).
Proof.
  intros Hnone Hrun Hset.
  destruct (StartAdvertising_cases env w device_name Hnone)
    as (uuids & r2 & setup & w' & _ & Hrun2 & _ & Hsvc & Hcases).
  rewrite Hrun in Hrun2. injection Hrun2 as <- <-.
  assert (Had : advertisement (w_app w1)
                = Some (advertisement_for device_name
                          (cfg_LocalName (config (w_app w))) uuids)).
  { destruct Hcases as [(_ & Had & _) | [(_ & Had & _) | (Had & _)]];
      [contradiction | exact Had | exact Had]. }
  unfold StopAdvertising, bind, get_app, interact, modify_app, ret.
  rewrite Had. cbn [ad_config advertisement_for ad_device_path ad_objectPath].
  unfold UnregisterAdvertisement. fold (unregister_call device_name).
  cbn [w_app w_exports w_log w_tick].
  eexists. split.
  { destruct (reply env (w_log w1) (unregister_call device_name)); reflexivity. }
  cbn. split; [unfold calls_of; cbn; apply daemon_calls_app |].
  split; [reflexivity |]. split; [reflexivity |].
  split; [exact Hsvc | reflexivity].
Qed.

Lemma StartAdvertising_StopAdvertising_witness :
  exists w1 w2,
    StartAdvertising "hci0" calm_env populated_world = (Ret None, w1)
    /\ StopAdvertising calm_env w1
       = (Ret (reply calm_env (w_log w1) (unregister_call "hci0")), w2)
    /\ calls_of w2 = calls_of w1 ++ [unregister_call "hci0"]
    /\ advertisement (w_app w2) = None.
Proof.
  destruct (StartAdvertising "hci0" calm_env populated_world) as [r w1] eqn:Hrun.
  assert (Hr : r = Ret None) by (vm_compute in Hrun; congruence).
  subst r.
  assert (Hset : advertisement (w_app w1) <> None).
  { vm_compute in Hrun. injection Hrun as <-. discriminate. }
  destruct (StartAdvertising_StopAdvertising calm_env populated_world w1 "hci0" None
              eq_refl Hrun Hset) as (w2 & Hstop & Hcalls & Hnil & _).
  exists w1, w2. split; [reflexivity |]. split; [exact Hstop |].
  split; [exact Hcalls | exact Hnil].
Defined.

(** ** Start-up *)

Lemma exportTree_run_exports (env : Env) (w : World) :
  Forall nonempty (registered_paths (w_app w)) ->
  exists ps n,
    ps ≡ₚ registered_paths (w_app w)
    /\ exportTree env w
       = (Ret (reply env (w_log w)
                 (tree_export w (mkNode "" [IntrospectData; ObjectManagerIntrospectData]
                                   (leaf_of <$> ps)))),
          {| w_app := w_app w;
             w_exports :=
               match reply env (w_log w)
                       (tree_export w (mkNode "" [IntrospectData; ObjectManagerIntrospectData]
                                         (leaf_of <$> ps))) with
               | Some _ => w_exports w
               | None =>
                   <[(Path (w_app w), "org.freedesktop.DBus.Introspectable") :=
                       ExIntrospectable
                         (mkNode "" [IntrospectData; ObjectManagerIntrospectData]
                            (leaf_of <$> ps))]> (w_exports w)
               end;
             w_log := w_log w
                      ++ [tree_export w (mkNode "" [IntrospectData; ObjectManagerIntrospectData]
                                           (leaf_of <$> ps))];
             w_tick := (w_tick w + n)%nat |}).
Proof.
  intros Hfull.
  destruct (serviceNodes_run env (w_app w) w Hfull) as (ps & n & Hps & Hrun).
  exists ps, n. split; [exact Hps |].
  unfold exportTree, bind, get_app. rewrite Hrun.
  unfold conn_Export, tree_export. cbn [w_log w_app w_exports w_tick advance].
  destruct (reply env (w_log w) _); reflexivity.
Qed.

Lemma Run_outcome (env : Env) (w : World) :
  let name_claim := EvRequestName (Name (w_app w)) in
  let om_export :=
    EvExport ExObjectManager (Path (w_app w)) ObjectManagerInterface in
  match reply env (w_log w) name_claim with
  | Some e =>
      Run env w
      = (Ret (Some e),
         {| w_app := w_app w; w_exports := w_exports w;
            w_log := w_log w ++ [name_claim]; w_tick := w_tick w |})
  | None =>
      match reply env (w_log w ++ [name_claim]) om_export with
      | Some e =>
          Run env w
          = (Ret (Some e),
             {| w_app := w_app w; w_exports := w_exports w;
                w_log := (w_log w ++ [name_claim]) ++ [om_export];
                w_tick := w_tick w |})
      | None =>
          Run env w
          = exportTree env
              {| w_app := w_app w;
                 w_exports :=
                   <[(Path (w_app w), ObjectManagerInterface) := ExObjectManager]>
                     (w_exports w);
                 w_log := (w_log w ++ [name_claim]) ++ [om_export];
                 w_tick := w_tick w |}
      end
  end.
Proof.
  cbn zeta. unfold Run, expose, bind, get_app, interact, conn_Export, ret.
  cbn [w_app w_exports w_log w_tick].
  destruct (reply env (w_log w) _) as [e |]; [reflexivity |].
  cbn [w_app w_exports w_log w_tick].
  destruct (reply env (w_log w ++ _) _) as [e |]; [reflexivity |].
  destruct (exportTree env _) as [[[e |] | why] w']; reflexivity.
Qed.

Lemma exportTree_log_extends (env : Env) (w : World) :
  exists rest, w_log (exportTree env w).2 = w_log w ++ rest.
Proof.
  destruct (nonempty_or_empty (registered_paths (w_app w))) as [Hfull | Hex].
  - destruct (exportTree_run env w Hfull) as (ps & node & w' & _ & _ & -> & _ & Hlog & _).
    eexists. exact Hlog.
  - destruct (exportTree_panics env w Hex) as (n & ->).
    exists []. cbn. rewrite app_nil_r. reflexivity.
Qed.

(** X20: [Run] stops at the first error it checks: when the RequestName call
    returns an error, or when the export of the object manager returns an
    error, it returns that error, exports nothing and never builds the tree.
    Of the RequestName call only the error is looked at: whenever it returns
    none, [Run] goes on to export the object manager. *)
Theorem Run_stops_at_first_error (env : Env) (w : World) :
  let name_claim := EvRequestName (Name (w_app w)) in
  let om_export :=
    EvExport ExObjectManager (Path (w_app w)) ObjectManagerInterface in
  (forall e, reply env (w_log w) name_claim = Some e ->
     (Run env w).1 = Ret (Some e)
     /\ w_exports (Run env w).2 = w_exports w
     /\ w_log (Run env w).2 = w_log w ++ [name_claim])
  /\ (forall e, reply env (w_log w) name_claim = None ->
      reply env (w_log w ++ [name_claim]) om_export = Some e ->
      (Run env w).1 = Ret (Some e)
      /\ w_exports (Run env w).2 = w_exports w
      /\ w_log (Run env w).2 = w_log w ++ [name_claim; om_export])
  /\ (reply env (w_log w) name_claim = None ->
      exists rest, w_log (Run env w).2 = w_log w ++ [name_claim; om_export] ++ rest).
Proof.
  cbn zeta. pose proof (Run_outcome env w) as H. cbn zeta in H.
  split; [| split].
  - intros e Hname. rewrite Hname in H. rewrite H. repeat split.
  - intros e Hname Hom. rewrite Hname, Hom in H. rewrite H. cbn.
    repeat split. rewrite <- app_assoc. reflexivity.
  - intros Hname. rewrite Hname in H.
    destruct (reply env (w_log w ++ _) _) as [e |].
    + rewrite H. exists []. cbn. rewrite <- app_assoc. reflexivity.
    + rewrite H.
      match goal with
      | |- context [exportTree env ?w2] =>
          destruct (exportTree_log_extends env w2) as (rest & ->)
      end.
      exists rest. cbn [w_log]. rewrite <- !app_assoc. reflexivity.
Qed.

Lemma Run_stops_at_first_error_witness :
  (Run name_refusing_env populated_world).1 = Ret (Some "name already taken")
  /\ w_exports (Run name_refusing_env populated_world).2 = w_exports populated_world
  /\ w_log (Run name_refusing_env populated_world).2
     = w_log populated_world ++ [EvRequestName (Name (w_app populated_world))].
Proof.
  pose proof (Run_stops_at_first_error name_refusing_env populated_world) as [H _].
  apply (H "name already taken"). reflexivity.
Defined.

(** X21: when [Run] returns nil, the bus name was claimed, then the object
    manager exported at the application's root path, then a tree published
    there that has one child for every registered path; the application is
    unchanged and the daemon was not called. *)
Theorem Run_publishes (env : Env) (w w' : World) :
  Run env w = (Ret None, w') ->
  exists node,
    w_log w' = w_log w ++ [EvRequestName (Name (w_app w));
                           EvExport ExObjectManager (Path (w_app w))
                             ObjectManagerInterface;
                           tree_export w node]
    /\ w_exports w' !! (Path (w_app w), ObjectManagerInterface) = Some ExObjectManager
    /\ published_tree w' = Some (ExIntrospectable node)
    /\ node_Interfaces node = [IntrospectData; ObjectManagerIntrospectData]
    /\ Some <$> (node_Name <$> node_Children node)
         ≡ₚ from1 <$> registered_paths (w_app w)
    /\ w_app w' = w_app w
    /\ calls_of w' = calls_of w.
Proof.
  intros Hrun. pose proof (Run_outcome env w) as H. cbn zeta in H.
  destruct (reply env (w_log w) _) as [e |]; [rewrite H in Hrun; discriminate Hrun |].
  destruct (reply env (w_log w ++ _) _) as [e |];
    [rewrite H in Hrun; discriminate Hrun |].
  rewrite Hrun in H. symmetry in H.
  set (w2 := {| w_app := w_app w; w_exports := _; w_log := _; w_tick := _ |}) in H.
  destruct (nonempty_or_empty (registered_paths (w_app w2))) as [Hfull | Hex].
  2: { destruct (exportTree_panics env w2 Hex) as (n & Hp).
       rewrite Hp in H. discriminate H. }
  destruct (exportTree_run_exports env w2 Hfull) as (ps & n & Hps & Htree).
  rewrite Htree in H.
  assert (Hn : Forall nonempty ps) by (rewrite Hps; exact Hfull).
  destruct (reply env (w_log w2) _) as [e |]; [discriminate H |].
  injection H as <-.
  exists (mkNode "" [IntrospectData; ObjectManagerIntrospectData] (leaf_of <$> ps)).
  cbn [w_log w_exports w_app node_Interfaces node_Children].
  split; [subst w2; cbn [w_log]; rewrite <- !app_assoc; reflexivity |].
  split.
  { rewrite lookup_insert_ne by (intros [= Hiface]; discriminate Hiface).
    subst w2. cbn [w_exports]. apply lookup_insert_eq. }
  split; [unfold published_tree; cbn [w_app w_exports]; apply lookup_insert_eq |].
  split; [reflexivity |].
  split; [rewrite leaf_names by exact Hn; rewrite Hps; reflexivity |].
  split; [reflexivity |].
  unfold calls_of. cbn [w_log]. subst w2. cbn [w_log].
  rewrite !daemon_calls_app. cbn. rewrite !app_nil_r. reflexivity.
Qed.

Lemma Run_publishes_witness :
  exists w' node,
    Run calm_env populated_world = (Ret None, w')
    /\ w_exports w' !! (Path (w_app populated_world), ObjectManagerInterface)
       = Some ExObjectManager
    /\ published_tree w' = Some (ExIntrospectable node).
Proof.
  destruct (Run calm_env populated_world) as [r w'] eqn:Hrun.
  assert (Hr : r = Ret None) by (vm_compute in Hrun; congruence).
  subst r.
  destruct (Run_publishes calm_env populated_world w' Hrun)
    as (node & _ & Hom & Hpub & _).
  exists w', node. split; [reflexivity |]. split; [exact Hom | exact Hpub].
Defined.

(** ** What each operation leaves alone *)

(** X22: [CreateService] registers nothing: whatever it returns, the service
    map, the directory, the advertisement and the exported handlers are as
    before and the daemon is not called, so the new service is neither in
    the published tree nor among the advertised UUIDs until [AddService]. *)
Theorem CreateService_registers_nothing (env : Env) (w : World)
    (props : GattService1Properties) (advertised_optional : list bool) :
  let w' := (CreateService props advertised_optional env w).2 in
  services (w_app w') = services (w_app w)
  /\ registered_paths (w_app w') = registered_paths (w_app w)
  /\ advertised_uuids (w_app w') = advertised_uuids (w_app w)
  /\ directory w' = directory w
  /\ advertisement (w_app w') = advertisement (w_app w)
  /\ w_exports w' = w_exports w
  /\ calls_of w' = calls_of w.
Proof.
  cbn zeta.
  assert (Hsvc : keeps services_of (CreateService props advertised_optional))
    by (unfold CreateService, NewGattService1; keeps_go).
  assert (Hdir : keeps directory (CreateService props advertised_optional))
    by (unfold CreateService, NewGattService1; keeps_go).
  assert (Had : keeps (fun w => advertisement (w_app w))
                  (CreateService props advertised_optional))
    by (unfold CreateService, NewGattService1; keeps_go).
  assert (Hexp : keeps w_exports (CreateService props advertised_optional))
    by (unfold CreateService, NewGattService1; keeps_go).
  assert (Hcalls : keeps calls_of (CreateService props advertised_optional))
    by (unfold CreateService, NewGattService1; keeps_go).
  specialize (Hsvc env w). unfold services_of in Hsvc.
  split; [exact Hsvc |].
  split; [unfold registered_paths, GetServices; rewrite Hsvc; reflexivity |].
  split; [unfold advertised_uuids; rewrite Hsvc; reflexivity |].
  split; [apply Hdir |]. split; [apply Had |]. split; [apply Hexp | apply Hcalls].
Qed.

(** X23: the two halves of the application do not interfere.  However they
    end, [AddService] and [RemoveService] leave the advertisement reference
    alone and never call the daemon; [StartAdvertising] and
    [StopAdvertising] leave the service map, the directory and the
    configuration (counter and callbacks) alone, and [StopAdvertising]
    exports nothing. *)
Theorem tree_and_advertising_apart (env : Env) (w : World) (s : GattService1)
    (device_name : string) :
  (advertisement (w_app (AddService s env w).2) = advertisement (w_app w)
   /\ calls_of (AddService s env w).2 = calls_of w)
  /\ (advertisement (w_app (RemoveService s env w).2) = advertisement (w_app w)
      /\ calls_of (RemoveService s env w).2 = calls_of w)
  /\ (services (w_app (StartAdvertising device_name env w).2) = services (w_app w)
      /\ directory (StartAdvertising device_name env w).2 = directory w
      /\ config (w_app (StartAdvertising device_name env w).2) = config (w_app w))
  /\ (services (w_app (StopAdvertising env w).2) = services (w_app w)
      /\ directory (StopAdvertising env w).2 = directory w
      /\ config (w_app (StopAdvertising env w).2) = config (w_app w)
      /\ w_exports (StopAdvertising env w).2 = w_exports w).
Proof.
  split; [split |].
  { assert (H : keeps (fun w => advertisement (w_app w)) (AddService s)).
    { unfold AddService, svc_Expose, AddObject, exportTree, serviceNodes,
        characteristicNodes, descriptorNodes. keeps_go. }
    apply H. }
  { assert (H : keeps calls_of (AddService s)).
    { unfold AddService, svc_Expose, AddObject, exportTree, serviceNodes,
        characteristicNodes, descriptorNodes. keeps_go. }
    apply H. }
  split; [split; [apply (RemoveService_keeps_advertisement s)
                 | apply RemoveService_keeps_calls] |].
  split; [split; [| split] | split; [| split; [| split]]].
  - assert (H : keeps services_of (StartAdvertising device_name)).
    { unfold StartAdvertising, advertisedUUIDs, NewLEAdvertisement1, ad_Expose.
      keeps_go. }
    apply H.
  - assert (H : keeps directory (StartAdvertising device_name)).
    { unfold StartAdvertising, advertisedUUIDs, NewLEAdvertisement1, ad_Expose.
      keeps_go. }
    apply H.
  - assert (H : keeps (fun w => config (w_app w)) (StartAdvertising device_name)).
    { unfold StartAdvertising, advertisedUUIDs, NewLEAdvertisement1, ad_Expose.
      keeps_go. }
    apply H.
  - assert (H : keeps services_of StopAdvertising)
      by (unfold StopAdvertising; keeps_go).
    apply H.
  - assert (H : keeps directory StopAdvertising)
      by (unfold StopAdvertising; keeps_go).
    apply H.
  - assert (H : keeps (fun w => config (w_app w)) StopAdvertising)
      by (unfold StopAdvertising; keeps_go).
    apply H.
  - assert (H : keeps w_exports StopAdvertising)
      by (unfold StopAdvertising; keeps_go).
    apply H.
Qed.
